(** * twitter-kol-alerts: the polling loop of [kol_moniter.py] and
      [monitor_kol_tweets.py]

    The repository holds two variants of one script.  Both run the same
    [monitor_tweets] loop (dedup set, fixed-window request counter,
    exception handler); they differ in the check interval and in how a
    notification leaves the process: [kol_moniter.py] posts to a Telegram
    channel, [monitor_kol_tweets.py] logs, prints and plays a sound.

    The embedding has two layers.  The control layer is a state-and-exception
    monad over the loop's variables and a clock, producing a trace of
    structured events, one per block of statements of the source.  The
    presentation layer ([io_of]) renders each event into the calls the
    variant makes (log, print, Telegram message, sound), with the strings the
    source formats. *)

From Stdlib Require Import ZArith QArith Lqa String Ascii List Lia.
From stdpp Require Import gmap strings list pretty.

Local Open Scope string_scope.
Local Open Scope Z_scope.

(** ** Python strings

    [str] values are modelled as byte strings.  Case folding and [repr]
    follow CPython on ASCII; bytes from 0x80 up (UTF-8 of other characters)
    are passed through unchanged. *)

Module PyStr.

(** [c.lower()] on one ASCII character. *)
Definition lower_ascii (c : ascii) : ascii :=
  let n := nat_of_ascii c in
  if ((65 <=? n)%nat && (n <=? 90)%nat)%bool then ascii_of_nat (n + 32) else c.

(** [s.lower()] *)
Fixpoint lower (s : string) : string :=
  match s with
  | EmptyString => EmptyString
  | String c s' => String (lower_ascii c) (lower s')
  end.

(** [needle in hay] *)
Fixpoint str_in (needle hay : string) : bool :=
  match hay with
  | EmptyString => String.prefix needle EmptyString
  | String _ hay' => String.prefix needle hay || str_in needle hay'
  end.

(** Membership of a character, used by [repr] to choose the quote. *)
Fixpoint has_char (c : ascii) (s : string) : bool :=
  match s with
  | EmptyString => false
  | String d s' => Ascii.eqb c d || has_char c s'
  end.

Definition hex_digit (n : nat) : ascii :=
  match String.get n "0123456789abcdef" with
  | Some c => c
  | None => "0"%char
  end.

Definition backslash : ascii := ascii_of_nat 92.
Definition squote : ascii := ascii_of_nat 39.
Definition dquote : ascii := ascii_of_nat 34.

(** One character of [repr(s)] under the chosen quote [q]. *)
Definition repr_char (q c : ascii) : string :=
  let n := nat_of_ascii c in
  if (Ascii.eqb c q || Ascii.eqb c backslash)%bool then String backslash (String c "")
  else if (n =? 9)%nat then String backslash "t"
  else if (n =? 10)%nat then String backslash "n"
  else if (n =? 13)%nat then String backslash "r"
  else if ((n <? 32)%nat || (n =? 127)%nat)%bool
       then String backslash (String "x" (String (hex_digit (n / 16)) (String (hex_digit (n mod 16)) "")))
  else String c "".

Fixpoint repr_body (q : ascii) (s : string) : string :=
  match s with
  | EmptyString => EmptyString
  | String c s' => repr_char q c ++ repr_body q s'
  end.

(** [repr(s)]: single quotes unless the string has a single quote and no
    double quote. *)
Definition repr (s : string) : string :=
  let q := if (has_char squote s && negb (has_char dquote s))%bool then dquote else squote in
  String q (repr_body q s ++ String q "").

(** [int(x)] of a float: truncation toward zero. *)
Definition int (x : Q) : Z := Z.quot (Qnum x) (Z.pos (Qden x)).

Definition nl : string := String (ascii_of_nat 10) "".
Definition cr : string := String (ascii_of_nat 13) "".

End PyStr.

(** ** Exceptions

    Two exceptions can reach the handler of [monitor_tweets] in this model:
    the [Exception(...)] raised by [get_latest_tweets_batch], and the
    [KeyError] of the dictionary lookup [id_to_username[tweet['author_id']]].
    [str(e)] of a [KeyError] is the [repr] of the missing key.  Responses are
    well formed (a 200 answer parses as JSON, posts have their three
    fields), transport errors of [requests.get] are left out, and the two
    sinks swallow their own failures, as [send_telegram_message] and
    [play_notification_sound] do. *)

Inductive exn : Type :=
| Exception (msg : string)
| KeyError (key : string).

Definition str (e : exn) : string :=
  match e with
  | Exception msg => msg
  | KeyError key => PyStr.repr key
  end.

(** ** Configuration *)

Inductive variant : Type :=
| Telegram   (* kol_moniter.py *)
| Audio.     (* monitor_kol_tweets.py *)

Definition CHECK_INTERVAL_MINS (v : variant) : Z :=
  match v with Telegram => 1 | Audio => 3 end.

Definition LOOKBACK_MINS (v : variant) : Z :=
  match v with Telegram => 1 | Audio => 3 end.

Definition MAX_TWEETS_PER_CHECK : Z := 10.

Definition RATE_LIMIT_REQUESTS : Z := 15.
Definition RATE_LIMIT_WINDOW : Z := 15 * 60.
Definition CHECK_INTERVAL (v : variant) : Z := CHECK_INTERVAL_MINS v * 60.

(** ** Data *)

(** A post of the search response; the fields are [tweet['id']],
    [tweet['author_id']] and [tweet['text']]. *)
Record tweet : Type := Tweet {
  tweet_id : string;
  tweet_author_id : string;
  tweet_text : string
}.

(** What [requests.get] returns for the search request: [response.status_code],
    [response.text], the value under the key ['data'] of [response.json()]
    when the key is there, and the time the request took. *)
Record response : Type := Response {
  status_code : Z;
  resp_text : string;
  resp_data : option (list tweet);
  resp_rtt : Q
}.

(** The variables of [monitor_tweets], and the clock read by [time.time()]. *)
Record state : Type := State {
  seen_tweets : gset string;
  requests_made : Z;
  window_start_time : Q;
  clock : Q
}.

(** ** Events of the control layer *)

Inductive event : Type :=
| EvStart                                   (* the start-up announcement *)
| EvWindowReset                             (* requests_made = 0; window_start_time = current_time *)
| EvRequest                                 (* requests.get(url, ...) of the search *)
| EvRecord                                  (* requests_made += 1 *)
| EvNoTweets                                (* "No new tweets found at ..." *)
| EvFound (n : nat)                         (* "Found n new tweet(s) at ..." *)
| EvDeliver (t : tweet) (username : string) (* the notification block of the for loop *)
| EvClear                                   (* seen_tweets.clear() *)
| EvCountdown (i : nat) (made : Z) (remaining : option Z)  (* the status line *)
| EvClearLine                               (* the blank line printed over the status line *)
| EvSleep (d : Z)                           (* sleep(d) *)
| EvError (msg : string)                    (* logging.error and the report of the except block *)
| EvRateLimitHit (wait_time : Z)            (* "Rate limit hit. Waiting ..." *)
| EvForcedReset.                            (* requests_made = 0; window_start_time = time.time() *)

(** ** The monad: state that survives an exception, and a trace *)

Definition M (A : Type) : Type := state -> (exn + A) * state * list event.

Definition ret {A} (a : A) : M A := fun s => (inr a, s, []).

Definition bind {A B} (m : M A) (k : A -> M B) : M B :=
  fun s =>
    match m s with
    | (inl e, s1, tr1) => (inl e, s1, tr1)
    | (inr a, s1, tr1) =>
        match k a s1 with
        | (r, s2, tr2) => (r, s2, (tr1 ++ tr2)%list)
        end
    end.

Definition raise {A} (e : exn) : M A := fun s => (inl e, s, []).

(** [try: m  except Exception as e: h e] *)
Definition try_except (m : M unit) (h : exn -> M unit) : M unit :=
  fun s =>
    match m s with
    | (inl e, s1, tr1) =>
        match h e s1 with
        | (r, s2, tr2) => (r, s2, (tr1 ++ tr2)%list)
        end
    | (inr a, s1, tr1) => (inr a, s1, tr1)
    end.

Definition emit (e : event) : M unit := fun s => (inr tt, s, [e]).
Definition gets {A} (f : state -> A) : M A := fun s => (inr (f s), s, []).
Definition modify (f : state -> state) : M unit := fun s => (inr tt, f s, []).

#[global] Instance M_ret : MRet M := @ret.
#[global] Instance M_bind : MBind M := fun A B k m => bind m k.

Definition result {A} (x : (exn + A) * state * list event) : exn + A := fst (fst x).
Definition final {A} (x : (exn + A) * state * list event) : state := snd (fst x).
Definition trace {A} (x : (exn + A) * state * list event) : list event := snd x.

(** ** Clock

    [time.time()] returns a float; the clock is a rational here, which every
    float is, and at the magnitude of epoch seconds the additions and
    subtractions of the source are exact on floats.  A sleep of [d] seconds
    moves the clock by [d], the search request by the round-trip time of
    its response.  The time the other statements take, the calls of the
    sink among them, is not counted: the clock here runs behind that of a
    run of the program by as much. *)

(** [time.time()] *)
Definition time_time : M Q := gets clock.

Definition advance (d : Q) (s : state) : state :=
  State (seen_tweets s) (requests_made s) (window_start_time s) (clock s + d).

(** [time.sleep(d)] / [await asyncio.sleep(d)]: every sleep of the source
    takes an [int]. *)
Definition sleep (d : Z) : M unit :=
  emit (EvSleep d);; modify (advance (inject_Z d)).

(** ** The fetcher *)

(** [get_latest_tweets_batch], on the response of the search request. *)
Definition get_latest_tweets_batch (r : response) : exn + list tweet :=
  if status_code r =? 429 then inl (Exception "Rate limit exceeded")
  else if negb (status_code r =? 200) then inl (Exception ("Failed to get tweets: " ++ resp_text r))
  else inr (match resp_data r with Some d => d | None => [] end).

(** The call of the fetcher inside the loop: the request goes out, time
    passes, and the outcome is returned or raised. *)
Definition fetch (r : response) : M (list tweet) :=
  emit EvRequest;;
  modify (advance (resp_rtt r));;
  match get_latest_tweets_batch r with
  | inl e => raise e
  | inr tweets => ret tweets
  end.

(** ** The loop of [monitor_tweets] *)

(** [user_map.items()] in dictionary order: (lower-cased handle, account id). *)
Definition user_map_t : Type := list (string * string).

(** [id_to_username = {v: k for k, v in user_map.items()}]: a later item
    overwrites an earlier one with the same id. *)
Definition id_to_username (user_map : user_map_t) : gmap string string :=
  foldl (fun m kv => <[kv.2 := kv.1]> m) ∅ user_map.

(** [d[key]], raising [KeyError(key)] when the key is missing. *)
Definition getitem (d : gmap string string) (key : string) : M string :=
  match d !! key with
  | Some v => mret v
  | None => raise (KeyError key)
  end.

Definition add_seen (i : string) (s : state) : state :=
  State ({[i]} ∪ seen_tweets s) (requests_made s) (window_start_time s) (clock s).

Definition clear_seen (s : state) : state :=
  State ∅ (requests_made s) (window_start_time s) (clock s).

Definition set_window (made : Z) (start : Q) (s : state) : state :=
  State (seen_tweets s) made start (clock s).

Definition incr_requests (s : state) : state :=
  State (seen_tweets s) (requests_made s + 1) (window_start_time s) (clock s).

(** [for tweet in tweets: if tweet['id'] not in seen_tweets: ...] *)
Fixpoint for_tweets (names : gmap string string) (tweets : list tweet) : M unit :=
  match tweets with
  | [] => mret tt
  | tweet :: rest =>
      seen ← gets seen_tweets;
      (if bool_decide (tweet_id tweet ∈ seen) then mret tt
       else
         modify (add_seen (tweet_id tweet));;
         username ← getitem names (tweet_author_id tweet);
         emit (EvDeliver tweet username));;
      for_tweets names rest
  end.

(** [if len(seen_tweets) > 1000: seen_tweets.clear()] *)
Definition trim_seen : M unit :=
  seen ← gets seen_tweets;
  if 1000 <? Z.of_nat (size seen) then emit EvClear;; modify clear_seen else mret tt.

(** [if current_time - window_start_time >= RATE_LIMIT_WINDOW: ...] *)
Definition reset_if_elapsed (current_time : Q) : M unit :=
  start ← gets window_start_time;
  if Qle_bool (inject_Z RATE_LIMIT_WINDOW) (current_time - start)
  then emit EvWindowReset;; modify (set_window 0 current_time)
  else mret tt.

(** [int(window_start_time + RATE_LIMIT_WINDOW - time.time())] *)
Definition remaining_window : M Z :=
  start ← gets window_start_time;
  t ← time_time;
  mret (PyStr.int (start + inject_Z RATE_LIMIT_WINDOW - t)).

(** [for i in range(CHECK_INTERVAL, 0, -1): ... sleep(1)]; the argument is
    the number of iterations left, which is also the value of [i]. *)
Fixpoint countdown (i : nat) : M unit :=
  match i with
  | O => mret tt
  | S i' =>
      remaining_time ← remaining_window;
      made ← gets requests_made;
      emit (EvCountdown i made (if 0 <? remaining_time then Some remaining_time else None));;
      sleep 1;;
      countdown i'
  end.

(** The body of the [try] of one iteration of [while True]. *)
Definition try_body (v : variant) (names : gmap string string) (r : response) : M unit :=
  current_time ← time_time;
  reset_if_elapsed current_time;;
  made ← gets requests_made;
  (if made <? RATE_LIMIT_REQUESTS then
     tweets ← fetch r;
     emit EvRecord;;
     modify incr_requests;;
     emit (match tweets with [] => EvNoTweets | _ => EvFound (length tweets) end);;
     for_tweets names tweets;;
     trim_seen
   else mret tt);;
  countdown (Z.to_nat (CHECK_INTERVAL v));;
  emit EvClearLine.

(** ["rate limit" in str(e).lower()] *)
Definition is_rate_limit (e : exn) : bool :=
  PyStr.str_in "rate limit" (PyStr.lower (str e)).

(** The [except Exception as e:] block. *)
Definition handler (v : variant) (e : exn) : M unit :=
  emit (EvError (str e));;
  if is_rate_limit e then
    wait_time ← remaining_window;
    (if 0 <? wait_time then emit (EvRateLimitHit wait_time);; sleep wait_time else mret tt);;
    t ← time_time;
    emit EvForcedReset;;
    modify (set_window 0 t)
  else sleep (CHECK_INTERVAL v).

(** One iteration of [while True]. *)
Definition iteration (v : variant) (names : gmap string string) (r : response) : M unit :=
  try_except (try_body v names r) (handler v).

(** The first [length rs] iterations of [while True]; [rs] gives, for each
    iteration, the answer the search API has for a request made in it.  An
    exception that leaves an iteration leaves the loop. *)
Fixpoint while_true (v : variant) (names : gmap string string) (rs : list response) : M unit :=
  match rs with
  | [] => mret tt
  | r :: rs' => iteration v names r;; while_true v names rs'
  end.

(** The state at [while True]: [seen_tweets = set()], [requests_made = 0],
    [window_start_time = time.time()]. *)
Definition initial (t0 : Q) : state := State ∅ 0 t0 t0.

(** [monitor_tweets], started at time [t0] with the resolved accounts. *)
Definition monitor_tweets (v : variant) (user_map : user_map_t) (t0 : Q) (rs : list response)
  : (exn + unit) * state * list event :=
  (emit EvStart;; while_true v (id_to_username user_map) rs) (initial t0).

(** ** Presentation: what each event does in each variant *)

Inductive io : Type :=
| Http_get                    (* requests.get *)
| Log_info (s : string)       (* logging.info(s) *)
| Log_error (s : string)      (* logging.error(s) *)
| Print (s : string)          (* the text written to stdout, line end included *)
| Send_telegram (s : string)  (* send_telegram_message(s) *)
| Play_sound                  (* play_notification_sound() *)
| Sleep (d : Z).              (* time.sleep(d) / await asyncio.sleep(d) *)

Definition HANDLES (v : variant) : list string :=
  match v with
  | Telegram =>
      ["Ashcryptoreal"; "RealRossU"; "ZssBecker"; "JacobKinge"; "chooserich";
       "LadyofCrypto1"; "notthreadguy"; "inversebrah"; "cobie"; "CryptoKaleo";
       "CryptoCapo_"; "TheCrowtrade"; "Pentosh1"; "TheCryptoDog";
       "stoolpresidente"; "moonpay"; "JakeGagain"]
  | Audio =>
      ["Ashcryptoreal"; "lynk0x"; "AltcoinGordon"; "RealRossU"; "ZssBecker";
       "JacobKinge"; "solana"; "chooserich"]
  end.

(** [sep.join(l)] *)
Fixpoint join (sep : string) (l : list string) : string :=
  match l with
  | [] => ""
  | [x] => x
  | x :: l' => x ++ sep ++ join sep l'
  end.

(** [f"https://twitter.com/i/web/status/{tweet['id']}"] *)
Definition tweet_url (t : tweet) : string :=
  "https://twitter.com/i/web/status/" ++ tweet_id t.

(** The [message] of kol_moniter.py. *)
Definition telegram_message (t : tweet) (username : string) : string :=
  "🔔 New Tweet from @" ++ username ++ "!" ++ PyStr.nl ++ PyStr.nl ++
  "📝 " ++ tweet_text t ++ PyStr.nl ++ PyStr.nl ++
  "🔗 " ++ tweet_url t.

(** The [log_message] of monitor_kol_tweets.py; [timestamp] is the string
    [datetime.now().strftime(...)] gave. *)
Definition log_message (timestamp : string) (t : tweet) (username : string) : string :=
  "New tweet from @" ++ username ++ " at " ++ timestamp ++ ": " ++ tweet_text t ++
  PyStr.nl ++ "URL: " ++ tweet_url t.

Definition start_msg : string := "Twitter Monitor Starting".

Definition status_line (i : nat) (made : Z) (remaining : option Z) : string :=
  PyStr.cr ++ "⏳ Next check in " ++ pretty i ++ "s | Rate limit: " ++ pretty made ++ "/" ++
  pretty RATE_LIMIT_REQUESTS ++ " requests" ++
  match remaining with
  | Some t => " (resets in " ++ pretty t ++ "s)"
  | None => ""
  end.

(** The calls an event stands for.  [now] is the string the clock formats to
    at that moment ([check_time], [timestamp]); [debug] printing is left
    out. *)
Definition io_of (v : variant) (now : string) (e : event) : list io :=
  match e, v with
  | EvStart, Telegram =>
      [Print (PyStr.nl ++ "🐦 " ++ start_msg ++ PyStr.nl);
       Send_telegram ("🐦 Twitter Monitor Bot Started" ++ PyStr.nl ++ PyStr.nl ++
                      "Monitoring handles:" ++ PyStr.nl ++ join ", " (HANDLES v));
       Log_info (start_msg ++ ". Monitoring handles: " ++ join ", " (HANDLES v))]
  | EvStart, Audio =>
      [Print (PyStr.nl ++ "🐦 " ++ start_msg ++ PyStr.nl);
       Print ("👥 Monitoring handles: " ++ join ", " (HANDLES v) ++ PyStr.nl);
       Print ("⏱️  Checking every " ++ pretty (CHECK_INTERVAL_MINS v) ++ " minutes" ++ PyStr.nl);
       Print ("🔍 Looking back " ++ pretty (LOOKBACK_MINS v) ++ " minutes for tweets" ++ PyStr.nl);
       Log_info (start_msg ++ ". Monitoring handles: " ++ join ", " (HANDLES v))]
  | EvRequest, _ => [Http_get]
  | EvNoTweets, _ =>
      [Log_info ("No new tweets found at " ++ now);
       Print (PyStr.nl ++ "📭 " ++ "No new tweets found at " ++ now ++ PyStr.nl ++ PyStr.nl)]
  | EvFound n, _ =>
      [Log_info ("Found " ++ pretty n ++ " new tweet(s) at " ++ now);
       Print (PyStr.nl ++ "📬 " ++ "Found " ++ pretty n ++ " new tweet(s) at " ++ now ++ PyStr.nl)]
  | EvDeliver t username, Telegram =>
      [Send_telegram (telegram_message t username);
       Log_info ("Sent alert for tweet " ++ tweet_id t ++ " to Telegram")]
  | EvDeliver t username, Audio =>
      [Log_info (log_message now t username);
       Print (PyStr.nl ++ "🔔 New Tweet from @" ++ username ++ "!" ++ PyStr.nl);
       Print ("📝 " ++ tweet_text t ++ PyStr.nl);
       Print ("🔗 " ++ tweet_url t ++ PyStr.nl ++ PyStr.nl);
       Play_sound]
  | EvCountdown i made remaining, _ => [Print (status_line i made remaining)]
  | EvClearLine, _ => [Print (PyStr.cr ++ String.concat "" (replicate 100 " ") ++ PyStr.cr)]
  | EvSleep d, _ => [Sleep d]
  | EvError msg, Telegram =>
      [Log_error ("Error: " ++ msg); Send_telegram ("❌ " ++ "Error: " ++ msg)]
  | EvError msg, Audio =>
      [Log_error ("Error: " ++ msg); Print (PyStr.nl ++ "❌ Error: " ++ msg ++ PyStr.nl)]
  | EvRateLimitHit w, _ =>
      [Print ("Rate limit hit. Waiting " ++ pretty w ++ " seconds for reset..." ++ PyStr.nl)]
  | (EvWindowReset | EvRecord | EvClear | EvForcedReset), _ => []
  end.

(** The delivery sink is the Telegram channel, respectively the sound. *)
Definition is_sink (a : io) : bool :=
  match a with
  | Send_telegram _ | Play_sound => true
  | _ => false
  end.

(** Number of sink invocations of a trace. *)
Definition sink_calls (v : variant) (tr : list event) : nat :=
  length (filter (fun a => is_sink a = true) (flat_map (io_of v "") tr)).

(** What the sink is called with over a trace, in order. *)
Definition sink_io (v : variant) (now : string) (tr : list event) : list io :=
  filter (fun a => is_sink a = true) (flat_map (io_of v now) tr).

(** ** Observations on traces *)

Definition is_delivery (e : event) : bool :=
  match e with EvDeliver _ _ => true | _ => false end.

(** The deliveries of a trace, in order. *)
Definition deliveries (tr : list event) : list event :=
  filter (fun e => is_delivery e = true) tr.

(** The arguments of the sleeps of a trace, in order. *)
Fixpoint sleeps (tr : list event) : list Z :=
  match tr with
  | [] => []
  | EvSleep d :: tr' => d :: sleeps tr'
  | _ :: tr' => sleeps tr'
  end.

(** The request counter as the trace tells it: a recorded request adds one,
    either reset starts from zero. *)
Definition count_step (n : Z) (e : event) : Z :=
  match e with
  | EvRecord => n + 1
  | EvWindowReset | EvForcedReset => 0
  | _ => n
  end.

Definition recorded (n : Z) (tr : list event) : Z := fold_left count_step tr n.

(** The ids delivered and not cleared since, as the trace tells it. *)
Definition pending_step (b : gset string) (e : event) : gset string :=
  match e with
  | EvDeliver t _ => {[tweet_id t]} ∪ b
  | EvClear => ∅
  | _ => b
  end.

Definition pending (b : gset string) (tr : list event) : gset string :=
  fold_left pending_step tr b.

(** ** The gate, as the top of an iteration computes it *)

(** [current_time - window_start_time >= RATE_LIMIT_WINDOW] at the top of an
    iteration started in [s]. *)
Definition elapsed (s : state) : bool :=
  Qle_bool (inject_Z RATE_LIMIT_WINDOW) (clock s - window_start_time s).

(** The state after the reset test. *)
Definition gate_state (s : state) : state :=
  if elapsed s then set_window 0 (clock s) s else s.

Definition gate_trace (s : state) : list event :=
  if elapsed s then [EvWindowReset] else [].

(** [requests_made < RATE_LIMIT_REQUESTS] after the reset test. *)
Definition permits (s : state) : bool :=
  requests_made (gate_state s) <? RATE_LIMIT_REQUESTS.

(** The state in which the for loop over the fetched posts starts. *)
Definition fetched_state (r : response) (s : state) : state :=
  incr_requests (advance (resp_rtt r) (gate_state s)).

(** The state in which an exception of the fetcher is caught. *)
Definition failed_state (r : response) (s : state) : state :=
  advance (resp_rtt r) (gate_state s).

Definition found_event (tweets : list tweet) : event :=
  match tweets with [] => EvNoTweets | _ => EvFound (length tweets) end.

(** Events of the waiting phase. *)
Definition is_quiet (e : event) : bool :=
  match e with
  | EvCountdown _ _ _ | EvSleep _ | EvClearLine => true
  | _ => false
  end.

(** No id is delivered while it is in the set [b] of ids delivered and not
    cleared since. *)
Fixpoint respects (b : gset string) (tr : list event) : Prop :=
  match tr with
  | [] => True
  | e :: tr' =>
      match e with
      | EvDeliver t _ => tweet_id t ∉ b
      | _ => True
      end ∧ respects (pending_step b e) tr'
  end.

(** The counter stays within the quota at every event. *)
Fixpoint within_quota (n : Z) (tr : list event) : Prop :=
  0 <= n <= RATE_LIMIT_REQUESTS ∧
  match tr with
  | [] => True
  | e :: tr' => within_quota (count_step n e) tr'
  end.

(** The dedup set after the size test, and the event of the clear. *)
Definition trimmed (s : state) : state :=
  if 1000 <? Z.of_nat (size (seen_tweets s)) then clear_seen s else s.
Definition trim_trace (s : state) : list event :=
  if 1000 <? Z.of_nat (size (seen_tweets s)) then [EvClear] else [].

(** [int(window_start_time + RATE_LIMIT_WINDOW - time.time())] in the handler. *)
Definition wait_time (s : state) : Z :=
  PyStr.int (window_start_time s + inject_Z RATE_LIMIT_WINDOW - clock s).

(** How an iteration started in [s] with answer [r] goes. *)
Inductive outcome (v : variant) (names : gmap string string) (r : response) (s : state) : Prop :=
| Closed : permits s = false → outcome v names r s
| FetchRaises e : permits s = true → get_latest_tweets_batch r = inl e → outcome v names r s
| LoopRaises tweets e :
    permits s = true → get_latest_tweets_batch r = inr tweets →
    result (for_tweets names tweets (fetched_state r s)) = inl e → outcome v names r s
| Completes tweets :
    permits s = true → get_latest_tweets_batch r = inr tweets →
    result (for_tweets names tweets (fetched_state r s)) = inr tt → outcome v names r s.

(** Traces of the waiting phase, and of the for loop. *)
Definition quiet (tr : list event) : Prop := Forall (fun e => is_quiet e = true) tr.
Definition delivering (tr : list event) : Prop := Forall (fun e => is_delivery e = true) tr.

(** Events that change the dedup set, respectively the request counter. *)
Definition touches_seen (e : event) : bool :=
  match e with EvDeliver _ _ | EvClear => true | _ => false end.
Definition touches_counter (e : event) : bool :=
  match e with EvRecord | EvWindowReset | EvForcedReset => true | _ => false end.
Definition is_gate_event (e : event) : bool :=
  match e with EvWindowReset | EvRequest => true | _ => false end.
Definition gate_free (tr : list event) : Prop := Forall (fun e => is_gate_event e = false) tr.
Definition seen_free (tr : list event) : Prop := Forall (fun e => touches_seen e = false) tr.
Definition counter_free (tr : list event) : Prop := Forall (fun e => touches_counter e = false) tr.

(** A dedup set of [n] ids, the decimal numerals below [n]. *)
Definition numbered_ids (n : nat) : gset string :=
  list_to_set (map (fun i : nat => pretty i) (seq 0 n)).

(** ** The account lookup: [get_user_ids] *)

(** An entry of [response.json()['data']] of the lookup: [user['username']]
    and [user['id']]. *)
Record user : Type := User {
  username : string;
  user_id : string
}.

(** What [requests.get] returns for the lookup: the status, the text, and
    the value under ['data'] of the JSON when the key is there. *)
Record lookup_response : Type := LookupResponse {
  lookup_status : Z;
  lookup_text : string;
  lookup_data : option (list user)
}.

(** [d[k] = v] on a dictionary kept in insertion order: a key that is there
    keeps its place and takes the new value. *)
Fixpoint dict_set (d : user_map_t) (k v : string) : user_map_t :=
  match d with
  | [] => [(k, v)]
  | (k', v') :: d' =>
      if String.eqb k' k then (k', v) :: d' else (k', v') :: dict_set d' k v
  end.

(** [d.get(k)] *)
Fixpoint dict_get (d : user_map_t) (k : string) : option string :=
  match d with
  | [] => None
  | (k', v') :: d' => if String.eqb k' k then Some v' else dict_get d' k
  end.

(** The URL of the lookup request. *)
Definition users_url (usernames : list string) : string :=
  "https://api.twitter.com/2/users/by?usernames=" ++ join "," usernames.

(** [get_user_ids], on the response of the lookup request. *)
Definition get_user_ids (r : lookup_response) : exn + user_map_t :=
  if negb (lookup_status r =? 200)
  then inl (Exception ("Failed to get user IDs: " ++ lookup_text r))
  else match lookup_data r with
       | None => inl (KeyError "data")
       | Some users =>
           inr (foldl (fun d u => dict_set d (PyStr.lower (username u)) (user_id u)) [] users)
       end.

(** [user_ids = list(user_map.values())] *)
Definition user_ids (user_map : user_map_t) : list string := map snd user_map.

(** The ['query'] parameter of the search request:
    [f'({" OR ".join(f"from:{uid}" for uid in user_ids)})']. *)
Definition search_query (ids : list string) : string :=
  "(" ++ join " OR " (map (fun uid => "from:" ++ uid) ids) ++ ")".

(** ** Start-up checks: [verify_setup], [verify_api_access] and [main] *)

(** [str(b)] of a Python bool. *)
Definition py_bool (b : bool) : string := if b then "True" else "False".

(** The lines printed for the resolved accounts. *)
Definition found_users (user_map : user_map_t) : list string :=
  (PyStr.nl ++ "✓ Found User IDs:" ++ PyStr.nl) ::
  map (fun kv => "  - @" ++ kv.1 ++ ": " ++ kv.2 ++ PyStr.nl) user_map.

(** [verify_setup] of kol_moniter.py and [verify_api_access] of
    monitor_kol_tweets.py: the value returned and the text printed.  The
    inputs are the outcomes of the calls made: the status of the test
    search and its [x-rate-limit-remaining] header, the response of the
    lookup, and the message of the [TelegramError] of the test message when
    it raises. *)
Definition verify (v : variant) (test_status : Z) (remaining : option string)
    (lookup : lookup_response) (telegram_error : option string) : bool * list string :=
  let twitter_ok := test_status =? 200 in
  let limit := "✓ Rate Limit Remaining: " ++ default "unknown" remaining ++ PyStr.nl in
  match v with
  | Telegram =>
      let head := [PyStr.nl ++ "🔍 Verifying Setup..." ++ PyStr.nl;
                   "✓ Twitter API: " ++ py_bool twitter_ok ++ PyStr.nl; limit] in
      let failed (m : string) :=
        [PyStr.nl ++ "❌ Setup Verification Failed: " ++ m ++ PyStr.nl] in
      match get_user_ids lookup with
      | inl e => (false, (head ++ failed (str e))%list)
      | inr user_map =>
          match telegram_error with
          | Some m => (false, (head ++ found_users user_map ++ failed m)%list)
          | None =>
              (twitter_ok,
               (head ++ found_users user_map ++
                [("✓ Telegram Bot: Working" ++ PyStr.nl)%string])%list)
          end
      end
  | Audio =>
      let head := [PyStr.nl ++ "🔍 Verifying API Access..." ++ PyStr.nl;
                   "✓ API Connection: " ++ py_bool twitter_ok ++ PyStr.nl; limit] in
      match get_user_ids lookup with
      | inl e =>
          (false,
           (head ++
            [(PyStr.nl ++ "❌ API Verification Failed: " ++ str e ++ PyStr.nl)%string])%list)
      | inr user_map => (true, (head ++ found_users user_map)%list)
      end
  end.

(** Truth value of what [os.getenv] returns: [None] and the empty string
    are false. *)
Definition truthy (o : option string) : bool :=
  match o with
  | Some (String _ _) => true
  | _ => false
  end.

(** How [main] ends before the loop, or starts it. *)
Inductive startup : Type :=
| HandlesUnset            (* "Please set your Twitter handles ..." *)
| CredentialsMissing      (* "Please set all required environment variables ..." *)
| VerificationFailed      (* "Please check your configuration and try again." *)
| Started (debug_mode : bool).

(** [main] up to the call of [monitor_tweets]: [handles] is [HANDLES], the
    three options are the environment variables, [verified] is what the
    verification returns, [answer] what the operator types at the prompt. *)
Definition main (v : variant) (handles : list string)
    (BEARER_TOKEN TELEGRAM_BOT_TOKEN TELEGRAM_CHANNEL_ID : option string)
    (verified : bool) (answer : string) : startup :=
  let unset :=
    match handles with
    | [] => true
    | h :: _ => String.eqb h "handle1"
    end in
  let credentials :=
    match v with
    | Telegram => truthy BEARER_TOKEN && truthy TELEGRAM_BOT_TOKEN && truthy TELEGRAM_CHANNEL_ID
    | Audio => truthy BEARER_TOKEN
    end in
  if unset then HandlesUnset
  else if negb credentials then CredentialsMissing
  else if negb verified then VerificationFailed
  else Started (String.eqb (PyStr.lower answer) "y").

(** ** More observations on traces *)

(** The ids of the deliveries of a trace, in order. *)
Fixpoint delivered_ids (tr : list event) : list string :=
  match tr with
  | [] => []
  | EvDeliver t _ :: tr' => tweet_id t :: delivered_ids tr'
  | _ :: tr' => delivered_ids tr'
  end.

(** The number of error reports and of start-up announcements of a trace. *)
Fixpoint reports (tr : list event) : nat :=
  match tr with
  | [] => 0
  | (EvError _ | EvStart) :: tr' => S (reports tr')
  | _ :: tr' => reports tr'
  end.

(** The seconds slept in a trace. *)
Definition slept (tr : list event) : Z := foldr Z.add 0 (sleeps tr).


(** * Properties *)

(** ** Running the parts of an iteration *)

Ltac munfold :=
  unfold time_time in *;
  unfold mbind, M_bind, mret, M_ret, bind, ret, emit, gets, modify, raise in *.

Lemma reset_if_elapsed_run (s : state) :
  reset_if_elapsed (clock s) s = (inr tt, gate_state s, gate_trace s).
Proof.
  unfold reset_if_elapsed, gate_state, gate_trace, elapsed. munfold.
  destruct (Qle_bool _ _); reflexivity.
Qed.

Lemma fetch_run (r : response) (s : state) :
  fetch r s =
  (match get_latest_tweets_batch r with inl e => inl e | inr tw => inr tw end,
   advance (resp_rtt r) s, [EvRequest]).
Proof.
  unfold fetch. munfold. destruct (get_latest_tweets_batch r); reflexivity.
Qed.

Lemma trim_seen_run (s : state) :
  trim_seen s =
  (inr tt,
   if 1000 <? Z.of_nat (size (seen_tweets s)) then clear_seen s else s,
   if 1000 <? Z.of_nat (size (seen_tweets s)) then [EvClear] else []).
Proof.
  unfold trim_seen. munfold. destruct (1000 <? _); reflexivity.
Qed.

Lemma sleep_run (d : Z) (s : state) :
  sleep d s = (inr tt, advance (inject_Z d) s, [EvSleep d]).
Proof. reflexivity. Qed.

Lemma countdown_run (i : nat) (s : state) :
  ∃ s' tr, countdown i s = (inr tt, s', tr) ∧
    seen_tweets s' = seen_tweets s ∧ requests_made s' = requests_made s ∧
    window_start_time s' = window_start_time s ∧
    Forall (fun e => is_quiet e = true) tr.
Proof.
  revert s. induction i as [|i IH]; intros s.
  - exists s, []. repeat split; constructor.
  - destruct (IH (advance (inject_Z 1) s)) as (s' & tr & E & H1 & H2 & H3 & H4).
    eexists s', _. split.
    + simpl. unfold remaining_window. munfold. simpl. rewrite E. reflexivity.
    + repeat split; try assumption. repeat constructor. assumption.
Qed.

Lemma for_tweets_cons_seen names t rest s :
  tweet_id t ∈ seen_tweets s →
  for_tweets names (t :: rest) s = for_tweets names rest s.
Proof.
  intros H. simpl. munfold. rewrite bool_decide_eq_true_2 by assumption.
  destruct (for_tweets names rest s) as [[r s'] tr]. reflexivity.
Qed.

Lemma for_tweets_cons_unknown names t rest s :
  tweet_id t ∉ seen_tweets s → names !! tweet_author_id t = None →
  for_tweets names (t :: rest) s =
  (inl (KeyError (tweet_author_id t)), add_seen (tweet_id t) s, []).
Proof.
  intros H N. simpl. munfold. rewrite bool_decide_eq_false_2 by assumption.
  unfold getitem. rewrite N. reflexivity.
Qed.

Lemma for_tweets_cons_known names t rest s u :
  tweet_id t ∉ seen_tweets s → names !! tweet_author_id t = Some u →
  for_tweets names (t :: rest) s =
  (result (for_tweets names rest (add_seen (tweet_id t) s)),
   final (for_tweets names rest (add_seen (tweet_id t) s)),
   EvDeliver t u :: trace (for_tweets names rest (add_seen (tweet_id t) s))).
Proof.
  intros H N. simpl. munfold. rewrite bool_decide_eq_false_2 by assumption.
  unfold getitem. rewrite N. munfold. simpl.
  destruct (for_tweets names rest _) as [[r s'] tr]. reflexivity.
Qed.

Lemma for_tweets_cases names t rest s :
  (tweet_id t ∈ seen_tweets s ∧
   for_tweets names (t :: rest) s = for_tweets names rest s) ∨
  ((tweet_id t ∉ seen_tweets s) ∧ names !! tweet_author_id t = None ∧
   for_tweets names (t :: rest) s =
   (inl (KeyError (tweet_author_id t)), add_seen (tweet_id t) s, [])) ∨
  (∃ u, (tweet_id t ∉ seen_tweets s) ∧ names !! tweet_author_id t = Some u ∧
   for_tweets names (t :: rest) s =
   (result (for_tweets names rest (add_seen (tweet_id t) s)),
    final (for_tweets names rest (add_seen (tweet_id t) s)),
    EvDeliver t u :: trace (for_tweets names rest (add_seen (tweet_id t) s)))).
Proof.
  destruct (decide (tweet_id t ∈ seen_tweets s)) as [H|H].
  - left. split; [assumption|]. by apply for_tweets_cons_seen.
  - right. destruct (names !! tweet_author_id t) as [u|] eqn:N.
    + right. exists u. repeat split; try assumption. by apply for_tweets_cons_known.
    + left. repeat split; try assumption. by apply for_tweets_cons_unknown.
Qed.

Lemma for_tweets_frame names tweets s :
  requests_made (final (for_tweets names tweets s)) = requests_made s ∧
  window_start_time (final (for_tweets names tweets s)) = window_start_time s ∧
  clock (final (for_tweets names tweets s)) = clock s ∧
  seen_tweets s ⊆ seen_tweets (final (for_tweets names tweets s)) ∧
  Forall (fun e => is_delivery e = true) (trace (for_tweets names tweets s)).
Proof.
  revert s. induction tweets as [|t rest IH]; intros s.
  - repeat split; [set_solver | constructor].
  - destruct (for_tweets_cases names t rest s) as [[H E]|[(H & N & E)|(u & H & N & E)]];
      rewrite E.
    + apply IH.
    + repeat split; [set_solver | constructor].
    + destruct (IH (add_seen (tweet_id t) s)) as (H1 & H2 & H3 & H4 & H5).
      repeat split; try assumption.
      * simpl in H4. unfold final; simpl. unfold final in H4. set_solver.
      * constructor; [reflexivity | assumption].
Qed.

Lemma for_tweets_respects names tweets s b :
  b ⊆ seen_tweets s →
  respects b (trace (for_tweets names tweets s)) ∧
  pending b (trace (for_tweets names tweets s)) ⊆
    seen_tweets (final (for_tweets names tweets s)).
Proof.
  revert s b. induction tweets as [|t rest IH]; intros s b Hb.
  - split; [exact I | exact Hb].
  - destruct (for_tweets_cases names t rest s) as [[H E]|[(H & N & E)|(u & H & N & E)]];
      rewrite E.
    + by apply IH.
    + split; [exact I|]. unfold final; simpl. set_solver.
    + destruct (IH (add_seen (tweet_id t) s) ({[tweet_id t]} ∪ b)) as [H1 H2].
      { simpl. set_solver. }
      split.
      * simpl. split; [set_solver | exact H1].
      * exact H2.
Qed.

Lemma for_tweets_all_seen names tweets s :
  (∀ t, t ∈ tweets → tweet_id t ∈ seen_tweets s) →
  for_tweets names tweets s = (inr tt, s, []).
Proof.
  induction tweets as [|t rest IH]; intros H; [reflexivity|].
  rewrite for_tweets_cons_seen by (apply H; left).
  apply IH. intros t' Ht'. apply H. by right.
Qed.

Lemma for_tweets_app names pre rest s :
  result (for_tweets names pre s) = inr tt →
  for_tweets names (pre ++ rest) s =
  (result (for_tweets names rest (final (for_tweets names pre s))),
   final (for_tweets names rest (final (for_tweets names pre s))),
   (trace (for_tweets names pre s) ++
    trace (for_tweets names rest (final (for_tweets names pre s))))%list).
Proof.
  revert s. induction pre as [|t pre IH]; intros s H.
  - change (for_tweets names [] s) with (@inr exn unit tt, s, @nil event).
    unfold result, final, trace; simpl.
    destruct (for_tweets names rest s) as [[r s'] tr]. reflexivity.
  - change ((t :: pre) ++ rest)%list with (t :: (pre ++ rest))%list.
    destruct (for_tweets_cases names t pre s) as [[Hs E]|[(Hs & N & E)|(u & Hs & N & E)]].
    + rewrite for_tweets_cons_seen by assumption. rewrite E in *. by apply IH.
    + rewrite E in H. discriminate.
    + rewrite (for_tweets_cons_known _ _ _ _ u) by assumption.
      rewrite E in *. unfold result, final, trace in *; simpl in *.
      rewrite IH by assumption. reflexivity.
Qed.

Lemma for_tweets_raises names tweets s e :
  result (for_tweets names tweets s) = inl e → ∃ k, e = KeyError k ∧ names !! k = None.
Proof.
  revert s. induction tweets as [|t rest IH]; intros s H; [discriminate|].
  destruct (for_tweets_cases names t rest s) as [[Hs E]|[(Hs & N & E)|(u & Hs & N & E)]];
    rewrite E in H.
  - exact (IH _ H).
  - injection H as <-. eauto.
  - exact (IH _ H).
Qed.

Lemma countdown_result i s : result (countdown i s) = inr tt.
Proof. destruct (countdown_run i s) as (s' & tr & E & _). by rewrite E. Qed.

Lemma try_body_closed v names r s :
  permits s = false →
  try_body v names r s =
  (inr tt, final (countdown (Z.to_nat (CHECK_INTERVAL v)) (gate_state s)),
   (gate_trace s ++ trace (countdown (Z.to_nat (CHECK_INTERVAL v)) (gate_state s))
    ++ [EvClearLine])%list).
Proof.
  intros P. unfold try_body. munfold. cbn beta iota.
  rewrite reset_if_elapsed_run. unfold permits in P. rewrite P.
  pose proof (countdown_result (Z.to_nat (CHECK_INTERVAL v)) (gate_state s)) as C.
  destruct (countdown _ _) as [[c s'] tr]. unfold result in C; simpl in C. subst c.
  unfold final, trace; simpl. rewrite ?app_nil_r. reflexivity.
Qed.

Lemma try_body_fetch_raises v names r s e :
  permits s = true → get_latest_tweets_batch r = inl e →
  try_body v names r s = (inl e, failed_state r s, (gate_trace s ++ [EvRequest])%list).
Proof.
  intros P G. unfold try_body. munfold. cbn beta iota.
  rewrite reset_if_elapsed_run. unfold permits in P. rewrite P.
  rewrite fetch_run, G. simpl. rewrite ?app_nil_r. reflexivity.
Qed.

Lemma try_body_loop_raises v names r s tweets e :
  permits s = true → get_latest_tweets_batch r = inr tweets →
  result (for_tweets names tweets (fetched_state r s)) = inl e →
  try_body v names r s =
  (inl e, final (for_tweets names tweets (fetched_state r s)),
   (gate_trace s ++ [EvRequest; EvRecord; found_event tweets] ++
    trace (for_tweets names tweets (fetched_state r s)))%list).
Proof.
  intros P G F. unfold try_body. munfold. cbn beta iota.
  rewrite reset_if_elapsed_run. unfold permits in P. rewrite P.
  rewrite fetch_run, G. cbn beta iota.
  change (incr_requests (advance (resp_rtt r) (gate_state s))) with (fetched_state r s).
  destruct (for_tweets names tweets (fetched_state r s)) as [[c s'] tr].
  unfold result in F; simpl in F. subst c.
  unfold final, trace; simpl. rewrite ?app_nil_r. reflexivity.
Qed.

Lemma try_body_completes v names r s tweets :
  permits s = true → get_latest_tweets_batch r = inr tweets →
  result (for_tweets names tweets (fetched_state r s)) = inr tt →
  try_body v names r s =
  (inr tt,
   final (countdown (Z.to_nat (CHECK_INTERVAL v))
            (trimmed (final (for_tweets names tweets (fetched_state r s))))),
   (gate_trace s ++ [EvRequest; EvRecord; found_event tweets] ++
    trace (for_tweets names tweets (fetched_state r s)) ++
    trim_trace (final (for_tweets names tweets (fetched_state r s))) ++
    trace (countdown (Z.to_nat (CHECK_INTERVAL v))
            (trimmed (final (for_tweets names tweets (fetched_state r s))))) ++
    [EvClearLine])%list).
Proof.
  intros P G F. unfold try_body. munfold. cbn beta iota.
  rewrite reset_if_elapsed_run. unfold permits in P. rewrite P.
  rewrite fetch_run, G. cbn beta iota.
  change (incr_requests (advance (resp_rtt r) (gate_state s))) with (fetched_state r s).
  destruct (for_tweets names tweets (fetched_state r s)) as [[c s'] tr].
  unfold result in F; simpl in F. subst c. cbn beta iota.
  rewrite trim_seen_run. fold (trimmed s') (trim_trace s').
  unfold final at 1 2, trace at 1 2. cbn [fst snd].
  pose proof (countdown_result (Z.to_nat (CHECK_INTERVAL v)) (trimmed s')) as C.
  destruct (countdown _ _) as [[c s''] tr'']. unfold result in C; simpl in C. subst c.
  unfold final, trace; simpl. rewrite ?app_nil_r, <- ?app_assoc. reflexivity.
Qed.

Lemma handler_other v e s :
  is_rate_limit e = false →
  handler v e s =
  (inr tt, advance (inject_Z (CHECK_INTERVAL v)) s,
   [EvError (str e); EvSleep (CHECK_INTERVAL v)]).
Proof. intros H. unfold handler. munfold. rewrite H. reflexivity. Qed.

Lemma handler_rate_limit_wait v e s :
  is_rate_limit e = true → 0 < wait_time s →
  handler v e s =
  (inr tt,
   set_window 0 (clock s + inject_Z (wait_time s)) (advance (inject_Z (wait_time s)) s),
   [EvError (str e); EvRateLimitHit (wait_time s); EvSleep (wait_time s); EvForcedReset]).
Proof.
  intros H W. unfold handler, remaining_window. munfold. rewrite H. cbn beta iota.
  fold (wait_time s). apply Z.ltb_lt in W. rewrite W. reflexivity.
Qed.

Lemma handler_rate_limit_nowait v e s :
  is_rate_limit e = true → wait_time s <= 0 →
  handler v e s =
  (inr tt, set_window 0 (clock s) s, [EvError (str e); EvForcedReset]).
Proof.
  intros H W. unfold handler, remaining_window. munfold. rewrite H. cbn beta iota.
  fold (wait_time s). apply Z.ltb_ge in W. rewrite W. reflexivity.
Qed.

Lemma handler_cases v e s :
  (is_rate_limit e = false ∧
   handler v e s =
   (inr tt, advance (inject_Z (CHECK_INTERVAL v)) s,
    [EvError (str e); EvSleep (CHECK_INTERVAL v)])) ∨
  (is_rate_limit e = true ∧ 0 < wait_time s ∧
   handler v e s =
   (inr tt,
    set_window 0 (clock s + inject_Z (wait_time s)) (advance (inject_Z (wait_time s)) s),
    [EvError (str e); EvRateLimitHit (wait_time s); EvSleep (wait_time s); EvForcedReset])) ∨
  (is_rate_limit e = true ∧ wait_time s <= 0 ∧
   handler v e s = (inr tt, set_window 0 (clock s) s, [EvError (str e); EvForcedReset])).
Proof.
  destruct (is_rate_limit e) eqn:H.
  - right. destruct (Z_lt_le_dec 0 (wait_time s)) as [W|W].
    + left. repeat split; try assumption. by apply handler_rate_limit_wait.
    + right. repeat split; try assumption. by apply handler_rate_limit_nowait.
  - left. split; [reflexivity|]. by apply handler_other.
Qed.

Lemma handler_result v e s : result (handler v e s) = inr tt.
Proof.
  destruct (handler_cases v e s) as [[_ E]|[(_ & _ & E)|(_ & _ & E)]]; by rewrite E.
Qed.

Lemma handler_seen v e s : seen_tweets (final (handler v e s)) = seen_tweets s.
Proof.
  destruct (handler_cases v e s) as [[_ E]|[(_ & _ & E)|(_ & _ & E)]]; by rewrite E.
Qed.

(** *** One iteration, case by case *)

Lemma iteration_closed v names r s :
  permits s = false →
  iteration v names r s =
  (inr tt, final (countdown (Z.to_nat (CHECK_INTERVAL v)) (gate_state s)),
   (gate_trace s ++ trace (countdown (Z.to_nat (CHECK_INTERVAL v)) (gate_state s))
    ++ [EvClearLine])%list).
Proof.
  intros P. unfold iteration, try_except. by rewrite try_body_closed.
Qed.

Lemma iteration_fetch_raises v names r s e :
  permits s = true → get_latest_tweets_batch r = inl e →
  iteration v names r s =
  (inr tt, final (handler v e (failed_state r s)),
   (gate_trace s ++ [EvRequest] ++ trace (handler v e (failed_state r s)))%list).
Proof.
  intros P G. unfold iteration, try_except.
  rewrite (try_body_fetch_raises _ _ _ _ e) by assumption.
  pose proof (handler_result v e (failed_state r s)) as H.
  destruct (handler v e _) as [[c s'] tr]. unfold result in H; simpl in H. subst c.
  unfold final, trace; simpl. by rewrite <- app_assoc.
Qed.

Lemma iteration_loop_raises v names r s tweets e :
  permits s = true → get_latest_tweets_batch r = inr tweets →
  result (for_tweets names tweets (fetched_state r s)) = inl e →
  iteration v names r s =
  (inr tt, final (handler v e (final (for_tweets names tweets (fetched_state r s)))),
   (gate_trace s ++ [EvRequest; EvRecord; found_event tweets] ++
    trace (for_tweets names tweets (fetched_state r s)) ++
    trace (handler v e (final (for_tweets names tweets (fetched_state r s)))))%list).
Proof.
  intros P G F. unfold iteration, try_except.
  rewrite (try_body_loop_raises _ _ _ _ tweets e) by assumption.
  pose proof (handler_result v e (final (for_tweets names tweets (fetched_state r s)))) as H.
  destruct (handler v e _) as [[c s'] tr]. unfold result in H; simpl in H. subst c.
  unfold final, trace; simpl. by rewrite <- !app_assoc.
Qed.

Lemma iteration_completes v names r s tweets :
  permits s = true → get_latest_tweets_batch r = inr tweets →
  result (for_tweets names tweets (fetched_state r s)) = inr tt →
  iteration v names r s =
  (inr tt,
   final (countdown (Z.to_nat (CHECK_INTERVAL v))
            (trimmed (final (for_tweets names tweets (fetched_state r s))))),
   (gate_trace s ++ [EvRequest; EvRecord; found_event tweets] ++
    trace (for_tweets names tweets (fetched_state r s)) ++
    trim_trace (final (for_tweets names tweets (fetched_state r s))) ++
    trace (countdown (Z.to_nat (CHECK_INTERVAL v))
            (trimmed (final (for_tweets names tweets (fetched_state r s))))) ++
    [EvClearLine])%list).
Proof.
  intros P G F. unfold iteration, try_except.
  by rewrite (try_body_completes _ _ _ _ tweets).
Qed.

Lemma iteration_outcome v names r s : outcome v names r s.
Proof.
  destruct (permits s) eqn:P; [|by apply Closed].
  destruct (get_latest_tweets_batch r) as [e|tweets] eqn:G; [by eapply FetchRaises|].
  destruct (result (for_tweets names tweets (fetched_state r s))) as [e|[]] eqn:F.
  - by eapply LoopRaises.
  - by eapply Completes.
Qed.

Lemma iteration_result v names r s : result (iteration v names r s) = inr tt.
Proof.
  destruct (iteration_outcome v names r s) as [P|e P G|tweets e P G F|tweets P G F].
  - by rewrite iteration_closed.
  - by rewrite (iteration_fetch_raises _ _ _ _ e).
  - by rewrite (iteration_loop_raises _ _ _ _ tweets e).
  - by rewrite (iteration_completes _ _ _ _ tweets).
Qed.

(** *** Observations distribute over concatenation *)

Lemma pending_app b t1 t2 : pending b (t1 ++ t2) = pending (pending b t1) t2.
Proof. apply fold_left_app. Qed.

Lemma recorded_app n t1 t2 : recorded n (t1 ++ t2) = recorded (recorded n t1) t2.
Proof. apply fold_left_app. Qed.

Lemma respects_app b t1 t2 :
  respects b (t1 ++ t2) ↔ respects b t1 ∧ respects (pending b t1) t2.
Proof.
  revert b. induction t1 as [|e t1 IH]; intros b; simpl.
  - tauto.
  - rewrite IH. tauto.
Qed.

Lemma within_quota_app n t1 t2 :
  within_quota n (t1 ++ t2) ↔ within_quota n t1 ∧ within_quota (recorded n t1) t2.
Proof.
  revert n. induction t1 as [|e t1 IH]; intros n; simpl.
  - destruct t2; simpl; tauto.
  - rewrite IH. tauto.
Qed.

Lemma within_quota_start n tr : within_quota n tr → 0 <= n <= RATE_LIMIT_REQUESTS.
Proof. destruct tr; simpl; tauto. Qed.

Lemma sink_calls_app v t1 t2 :
  sink_calls v (t1 ++ t2) = (sink_calls v t1 + sink_calls v t2)%nat.
Proof.
  unfold sink_calls. by rewrite flat_map_app, filter_app, length_app.
Qed.

Lemma deliveries_app t1 t2 : deliveries (t1 ++ t2) = (deliveries t1 ++ deliveries t2)%list.
Proof. apply filter_app. Qed.

(** *** The waiting phase changes no observation *)

Lemma quiet_pending tr b : quiet tr → pending b tr = b.
Proof.
  intros Hq. revert b. induction Hq as [|e tr' He _ IH]; intros b; [reflexivity|].
  simpl. rewrite <- (IH b) at 2. by destruct e.
Qed.

Lemma quiet_respects tr b : quiet tr → respects b tr.
Proof.
  intros Hq. revert b. induction Hq as [|e tr' He _ IH]; intros b; [exact I|].
  simpl. split; [by destruct e | apply IH].
Qed.

Lemma quiet_recorded tr n : quiet tr → recorded n tr = n.
Proof.
  intros Hq. revert n. induction Hq as [|e tr' He _ IH]; intros n; [reflexivity|].
  simpl. rewrite <- (IH n) at 2. by destruct e.
Qed.

Lemma quiet_within_quota tr n :
  quiet tr → 0 <= n <= RATE_LIMIT_REQUESTS → within_quota n tr.
Proof.
  intros Hq. revert n. induction Hq as [|e tr' He _ IH]; intros n Hn; [by split|].
  simpl. split; [exact Hn|]. destruct e; try discriminate; by apply IH.
Qed.

Lemma quiet_sink_calls tr v : quiet tr → sink_calls v tr = 0%nat.
Proof.
  intros Hq. induction Hq as [|e tr' He _ IH]; [reflexivity|].
  change (e :: tr') with ([e] ++ tr')%list. rewrite sink_calls_app, IH.
  by destruct e, v.
Qed.

Lemma quiet_deliveries tr : quiet tr → deliveries tr = [].
Proof.
  intros Hq. induction Hq as [|e tr' He _ IH]; [reflexivity|].
  unfold deliveries in *. rewrite filter_cons. destruct e; try discriminate; simpl; exact IH.
Qed.


(** *** The for loop touches no counter *)

Lemma delivering_recorded tr n : delivering tr → recorded n tr = n.
Proof.
  intros Hd. revert n. induction Hd as [|e tr' He _ IH]; intros n; [reflexivity|].
  simpl. rewrite <- (IH n) at 2. by destruct e.
Qed.

Lemma delivering_within_quota tr n :
  delivering tr → 0 <= n <= RATE_LIMIT_REQUESTS → within_quota n tr.
Proof.
  intros Hd. revert n. induction Hd as [|e tr' He _ IH]; intros n Hn; [by split|].
  simpl. split; [exact Hn|]. destruct e; try discriminate; by apply IH.
Qed.

Lemma delivering_sleeps tr : delivering tr → sleeps tr = [].
Proof.
  intros Hd. induction Hd as [|e tr' He _ IH]; [reflexivity|]. by destruct e.
Qed.

Lemma delivering_not_in tr e : delivering tr → is_delivery e = false → e ∉ tr.
Proof.
  intros Hd He Hin. unfold delivering in Hd. rewrite Forall_forall in Hd.
  specialize (Hd e Hin). congruence.
Qed.

Lemma seen_free_pending tr b : seen_free tr → pending b tr = b.
Proof.
  intros H. revert b. induction H as [|e tr' He _ IH]; intros b; [reflexivity|].
  simpl. rewrite <- (IH b) at 2. by destruct e.
Qed.

Lemma seen_free_respects tr b : seen_free tr → respects b tr.
Proof.
  intros H. revert b. induction H as [|e tr' He _ IH]; intros b; [exact I|].
  simpl. split; [by destruct e | apply IH].
Qed.

Lemma counter_free_recorded tr n : counter_free tr → recorded n tr = n.
Proof.
  intros H. revert n. induction H as [|e tr' He _ IH]; intros n; [reflexivity|].
  simpl. rewrite <- (IH n) at 2. by destruct e.
Qed.

Lemma counter_free_within_quota tr n :
  counter_free tr → 0 <= n <= RATE_LIMIT_REQUESTS → within_quota n tr.
Proof.
  intros H. revert n. induction H as [|e tr' He _ IH]; intros n Hn; [by split|].
  simpl. split; [exact Hn|]. destruct e; try discriminate; by apply IH.
Qed.

Lemma quiet_seen_free tr : quiet tr → seen_free tr.
Proof. intros H. eapply Forall_impl; [exact H|]. by intros []. Qed.

Lemma quiet_counter_free tr : quiet tr → counter_free tr.
Proof. intros H. eapply Forall_impl; [exact H|]. by intros []. Qed.

Lemma delivering_counter_free tr : delivering tr → counter_free tr.
Proof. intros H. eapply Forall_impl; [exact H|]. by intros []. Qed.

Lemma countdown_quiet i s : quiet (trace (countdown i s)).
Proof. destruct (countdown_run i s) as (s' & tr & E & _ & _ & _ & H). by rewrite E. Qed.

Lemma countdown_seen i s : seen_tweets (final (countdown i s)) = seen_tweets s.
Proof. destruct (countdown_run i s) as (s' & tr & E & H & _). by rewrite E. Qed.

Lemma countdown_requests i s : requests_made (final (countdown i s)) = requests_made s.
Proof. destruct (countdown_run i s) as (s' & tr & E & _ & H & _). by rewrite E. Qed.


Lemma gate_trace_seen_free s : seen_free (gate_trace s).
Proof. unfold gate_trace. destruct (elapsed s); repeat constructor. Qed.

Lemma gate_state_seen s : seen_tweets (gate_state s) = seen_tweets s.
Proof. unfold gate_state. by destruct (elapsed s). Qed.

Lemma gate_state_requests s :
  requests_made (gate_state s) = recorded (requests_made s) (gate_trace s).
Proof. unfold gate_state, gate_trace. by destruct (elapsed s). Qed.

Lemma gate_within_quota s :
  0 <= requests_made s <= RATE_LIMIT_REQUESTS →
  within_quota (requests_made s) (gate_trace s).
Proof.
  intros H. unfold gate_trace. destruct (elapsed s); simpl; unfold RATE_LIMIT_REQUESTS in *; lia.
Qed.

Lemma handler_seen_free v e s : seen_free (trace (handler v e s)).
Proof.
  destruct (handler_cases v e s) as [[_ E]|[(_ & _ & E)|(_ & _ & E)]]; rewrite E;
    repeat constructor.
Qed.

Lemma handler_requests v e s n :
  n = requests_made s →
  requests_made (final (handler v e s)) = recorded n (trace (handler v e s)).
Proof.
  intros ->.
  destruct (handler_cases v e s) as [[_ E]|[(_ & _ & E)|(_ & _ & E)]]; by rewrite E.
Qed.

Lemma handler_within_quota v e s n :
  0 <= n <= RATE_LIMIT_REQUESTS → within_quota n (trace (handler v e s)).
Proof.
  intros H.
  destruct (handler_cases v e s) as [[_ E]|[(_ & _ & E)|(_ & _ & E)]]; rewrite E;
    unfold trace; simpl; unfold RATE_LIMIT_REQUESTS in *; lia.
Qed.

Lemma trimmed_pending s b :
  b ⊆ seen_tweets s →
  respects b (trim_trace s) ∧ pending b (trim_trace s) ⊆ seen_tweets (trimmed s).
Proof.
  intros H. unfold trim_trace, trimmed. destruct (1000 <? _); simpl; set_solver.
Qed.

Lemma trace_mk {A} (a : exn + A) b c : trace (a, b, c) = c.
Proof. reflexivity. Qed.
Lemma final_mk {A} (a : exn + A) b c : final (a, b, c) = b.
Proof. reflexivity. Qed.
Lemma result_mk {A} (a : exn + A) b c : result (a, b, c) = a.
Proof. reflexivity. Qed.

Ltac projections := rewrite ?trace_mk, ?final_mk, ?result_mk.

(** *** One iteration keeps both observations in step with the state *)

Lemma prelude_seen_free tweets : seen_free [EvRequest; EvRecord; found_event tweets].
Proof. destruct tweets; repeat constructor. Qed.

Lemma waiting_seen_free i s : seen_free (trace (countdown i s) ++ [EvClearLine]).
Proof. apply Forall_app_2; [apply quiet_seen_free, countdown_quiet | repeat constructor]. Qed.

Lemma clear_line_seen_free : seen_free [EvClearLine].
Proof. repeat constructor. Qed.

Lemma countdown_seen_free i s : seen_free (trace (countdown i s)).
Proof. apply quiet_seen_free, countdown_quiet. Qed.

Ltac conj := repeat match goal with |- _ ∧ _ => split end.

Lemma iteration_respects v names r s b :
  b ⊆ seen_tweets s →
  respects b (trace (iteration v names r s)) ∧
  pending b (trace (iteration v names r s)) ⊆ seen_tweets (final (iteration v names r s)).
Proof.
  intros Hb.
  assert (Hf : b ⊆ seen_tweets (fetched_state r s)).
  { unfold fetched_state; simpl. by rewrite gate_state_seen. }
  pose proof (gate_trace_seen_free s) as Hg.
  destruct (iteration_outcome v names r s) as [P|e P G|tweets e P G F|tweets P G F].
  - rewrite iteration_closed by assumption. projections.
    rewrite countdown_seen, gate_state_seen.
    pose proof (waiting_seen_free (Z.to_nat (CHECK_INTERVAL v)) (gate_state s)) as Hw.
    rewrite respects_app, pending_app, !(seen_free_pending _ _ Hg), (seen_free_pending _ _ Hw).
    split; [split; apply seen_free_respects; assumption | assumption].
  - rewrite (iteration_fetch_raises _ _ _ _ e) by assumption. projections.
    rewrite handler_seen. unfold failed_state at 2; simpl. rewrite gate_state_seen.
    assert (Hs : seen_free ([EvRequest] ++ trace (handler v e (failed_state r s)))).
    { apply Forall_app_2; [repeat constructor | apply handler_seen_free]. }
    rewrite respects_app, pending_app, !(seen_free_pending _ _ Hg), (seen_free_pending _ _ Hs).
    split; [split; apply seen_free_respects; assumption | assumption].
  - rewrite (iteration_loop_raises _ _ _ _ tweets e) by assumption.
    projections. rewrite handler_seen.
    destruct (for_tweets_respects names tweets (fetched_state r s) b Hf) as [R1 R2].
    pose proof (prelude_seen_free tweets) as Hp.
    pose proof (handler_seen_free v e (final (for_tweets names tweets (fetched_state r s)))) as Hh.
    rewrite !respects_app, !pending_app, !(seen_free_pending _ _ Hg), !(seen_free_pending _ _ Hp),
      (seen_free_pending _ _ Hh).
    conj; try assumption; apply seen_free_respects; assumption.
  - rewrite (iteration_completes _ _ _ _ tweets) by assumption.
    projections. rewrite countdown_seen.
    destruct (for_tweets_respects names tweets (fetched_state r s) b Hf) as [R1 R2].
    destruct (trimmed_pending _ _ R2) as [R3 R4].
    pose proof (prelude_seen_free tweets) as Hp.
    pose proof (countdown_seen_free (Z.to_nat (CHECK_INTERVAL v))
                  (trimmed (final (for_tweets names tweets (fetched_state r s))))) as Hw.
    pose proof clear_line_seen_free as Hc.
    rewrite !respects_app, !pending_app, !(seen_free_pending _ _ Hg), !(seen_free_pending _ _ Hp),
      !(seen_free_pending _ _ Hc), !(seen_free_pending _ _ Hw).
    conj; try assumption; apply seen_free_respects; assumption.
Qed.

(** *** ... and the request counter *)

Lemma prelude_recorded n tweets :
  recorded n [EvRequest; EvRecord; found_event tweets] = n + 1.
Proof. by destruct tweets. Qed.

Lemma prelude_within_quota n tweets :
  0 <= n < RATE_LIMIT_REQUESTS → within_quota n [EvRequest; EvRecord; found_event tweets].
Proof. intros H. destruct tweets; simpl; unfold RATE_LIMIT_REQUESTS in *; lia. Qed.

Lemma trim_counter_free s : counter_free (trim_trace s).
Proof. unfold trim_trace. destruct (1000 <? _); repeat constructor. Qed.

Lemma waiting_counter_free i s : counter_free (trace (countdown i s) ++ [EvClearLine]).
Proof. apply Forall_app_2; [apply quiet_counter_free, countdown_quiet | repeat constructor]. Qed.

Lemma for_tweets_counter_free names tweets s : counter_free (trace (for_tweets names tweets s)).
Proof. apply delivering_counter_free, for_tweets_frame. Qed.

Lemma trimmed_requests s : requests_made (trimmed s) = requests_made s.
Proof. unfold trimmed. by destruct (1000 <? _). Qed.

Ltac bounds :=
  cbn [within_quota count_step recorded fold_left requests_made set_window] in *;
  unfold RATE_LIMIT_REQUESTS in *; lia.

Lemma iteration_quota v names r s :
  0 <= requests_made s <= RATE_LIMIT_REQUESTS →
  within_quota (requests_made s) (trace (iteration v names r s)) ∧
  requests_made (final (iteration v names r s)) =
    recorded (requests_made s) (trace (iteration v names r s)).
Proof.
  intros Hn.
  pose proof (gate_within_quota s Hn) as Hg.
  pose proof (gate_state_requests s) as Eg.
  assert (Hn' : 0 <= requests_made (gate_state s) <= RATE_LIMIT_REQUESTS).
  { unfold gate_state. destruct (elapsed s); bounds. }
  destruct (iteration_outcome v names r s) as [P|e P G|tweets e P G F|tweets P G F].
  - rewrite iteration_closed by assumption. projections.
    pose proof (waiting_counter_free (Z.to_nat (CHECK_INTERVAL v)) (gate_state s)) as Hw.
    rewrite within_quota_app, recorded_app, (counter_free_recorded _ _ Hw), <- Eg,
      countdown_requests.
    conj; [assumption | by apply counter_free_within_quota | reflexivity].
  - rewrite (iteration_fetch_raises _ _ _ _ e) by assumption. projections.
    rewrite !within_quota_app, !recorded_app, <- Eg.
    change (recorded (requests_made (gate_state s)) [EvRequest])
      with (requests_made (failed_state r s)).
    conj; [assumption | bounds | by apply handler_within_quota | by apply handler_requests].
  - rewrite (iteration_loop_raises _ _ _ _ tweets e) by assumption. projections.
    apply Z.ltb_lt in P.
    pose proof (for_tweets_counter_free names tweets (fetched_state r s)) as Hc.
    destruct (for_tweets_frame names tweets (fetched_state r s)) as (Hr & _).
    rewrite !within_quota_app, !recorded_app, <- Eg, prelude_recorded,
      (counter_free_recorded _ _ Hc).
    conj; [assumption | apply prelude_within_quota; lia
          | apply counter_free_within_quota; [assumption | bounds]
          | apply handler_within_quota; bounds
          | apply handler_requests; by rewrite Hr].
  - rewrite (iteration_completes _ _ _ _ tweets) by assumption. projections.
    apply Z.ltb_lt in P.
    pose proof (for_tweets_counter_free names tweets (fetched_state r s)) as Hc.
    destruct (for_tweets_frame names tweets (fetched_state r s)) as (Hr & _).
    pose proof (trim_counter_free (final (for_tweets names tweets (fetched_state r s)))) as Ht.
    pose proof (waiting_counter_free (Z.to_nat (CHECK_INTERVAL v))
                  (trimmed (final (for_tweets names tweets (fetched_state r s))))) as Hw.
    rewrite within_quota_app, (within_quota_app _ [EvRequest; EvRecord; found_event tweets]),
      (within_quota_app _ (trace (for_tweets names tweets (fetched_state r s)))),
      (within_quota_app _ (trim_trace _)).
    rewrite recorded_app, (recorded_app _ [EvRequest; EvRecord; found_event tweets]),
      (recorded_app _ (trace (for_tweets names tweets (fetched_state r s)))),
      (recorded_app _ (trim_trace _)).
    rewrite <- Eg, prelude_recorded,
      (counter_free_recorded _ _ Hc), (counter_free_recorded _ _ Ht),
      (counter_free_recorded _ _ Hw), countdown_requests, trimmed_requests, Hr.
    conj; [assumption | apply prelude_within_quota; lia
          | apply counter_free_within_quota; [assumption | bounds]
          | apply counter_free_within_quota; [assumption | bounds]
          | apply counter_free_within_quota; [assumption | bounds]
          | reflexivity].
Qed.

(** ** The loop *)

Lemma while_true_cons v names r rs s :
  while_true v names (r :: rs) s =
  (result (while_true v names rs (final (iteration v names r s))),
   final (while_true v names rs (final (iteration v names r s))),
   (trace (iteration v names r s) ++
    trace (while_true v names rs (final (iteration v names r s))))%list).
Proof.
  pose proof (iteration_result v names r s) as H.
  cbn [while_true]. munfold. destruct (iteration v names r s) as [[c s'] tr].
  unfold result in H; simpl in H. subst c. projections.
  destruct (while_true v names rs s') as [[c s''] tr']. reflexivity.
Qed.

Lemma while_true_result v names rs s : result (while_true v names rs s) = inr tt.
Proof.
  revert s. induction rs as [|r rs IH]; intros s; [reflexivity|].
  rewrite while_true_cons. projections. apply IH.
Qed.

Lemma while_true_respects v names rs s b :
  b ⊆ seen_tweets s →
  respects b (trace (while_true v names rs s)) ∧
  pending b (trace (while_true v names rs s)) ⊆ seen_tweets (final (while_true v names rs s)).
Proof.
  revert s b. induction rs as [|r rs IH]; intros s b Hb.
  - split; [exact I | exact Hb].
  - rewrite while_true_cons. projections.
    destruct (iteration_respects v names r s b Hb) as [R1 R2].
    destruct (IH _ _ R2) as [R3 R4].
    rewrite respects_app, pending_app. conj; assumption.
Qed.

Lemma while_true_quota v names rs s :
  0 <= requests_made s <= RATE_LIMIT_REQUESTS →
  within_quota (requests_made s) (trace (while_true v names rs s)) ∧
  requests_made (final (while_true v names rs s)) =
    recorded (requests_made s) (trace (while_true v names rs s)).
Proof.
  revert s. induction rs as [|r rs IH]; intros s Hn.
  - split; [split; [exact Hn | exact I] | reflexivity].
  - rewrite while_true_cons. projections.
    destruct (iteration_quota v names r s Hn) as [Q1 Q2].
    assert (Hn' : 0 <= requests_made (final (iteration v names r s)) <= RATE_LIMIT_REQUESTS).
    { rewrite Q2. clear -Q1. revert Q1. generalize (requests_made s).
      induction (trace (iteration v names r s)) as [|e tr IHtr]; intros n Hq.
      - apply Hq.
      - apply IHtr, Hq. }
    destruct (IH _ Hn') as [Q3 Q4].
    rewrite within_quota_app, recorded_app, <- Q2. conj; assumption.
Qed.

Lemma monitor_tweets_run v user_map t0 rs :
  monitor_tweets v user_map t0 rs =
  (inr tt, final (while_true v (id_to_username user_map) rs (initial t0)),
   EvStart :: trace (while_true v (id_to_username user_map) rs (initial t0))).
Proof.
  pose proof (while_true_result v (id_to_username user_map) rs (initial t0)) as H.
  unfold monitor_tweets. munfold.
  destruct (while_true _ _ _ _) as [[c s'] tr]. unfold result in H; simpl in H. by subst c.
Qed.

(** A delivery of an id that is pending comes after a clear. *)
Lemma respects_pending_clear b tr :
  respects b tr →
  ∀ t1 t u t2, tr = (t1 ++ EvDeliver t u :: t2)%list → tweet_id t ∈ b → EvClear ∈ t1.
Proof.
  revert b. induction tr as [|e tr IH]; intros b Hr t1 t u t2 E Hin.
  - by destruct t1.
  - destruct t1 as [|e1 t1]; simpl in E; injection E as -> ->.
    + simpl in Hr. tauto.
    + destruct Hr as [_ Hr].
      assert (Hc : e1 = EvClear ∨ tweet_id t ∈ pending_step b e1).
      { destruct e1; simpl; auto. right. apply elem_of_union_r, Hin. }
      destruct Hc as [-> | Hc]; [left|].
      right. by eapply (IH _ Hr).
Qed.

(** ** Sink invocations *)

Lemma sink_calls_gate v s : sink_calls v (gate_trace s) = 0%nat.
Proof. unfold gate_trace. by destruct (elapsed s). Qed.

Lemma sink_calls_prelude v tweets :
  sink_calls v [EvRequest; EvRecord; found_event tweets] = 0%nat.
Proof. by destruct tweets, v. Qed.

Lemma sink_calls_trim v s : sink_calls v (trim_trace s) = 0%nat.
Proof. unfold trim_trace. by destruct (1000 <? _), v. Qed.

Lemma sink_calls_waiting v i s :
  sink_calls v (trace (countdown i s) ++ [EvClearLine]) = 0%nat.
Proof.
  rewrite sink_calls_app, quiet_sink_calls by apply countdown_quiet. by destruct v.
Qed.

Lemma sink_calls_deliver v t u : sink_calls v [EvDeliver t u] = 1%nat.
Proof. by destruct v. Qed.

(** An iteration whose fetched posts are all in the dedup set invokes no sink. *)
Lemma iteration_nothing_new v names r s tweets :
  get_latest_tweets_batch r = inr tweets →
  (∀ t, t ∈ tweets → tweet_id t ∈ seen_tweets s) →
  sink_calls v (trace (iteration v names r s)) = 0%nat.
Proof.
  intros G Hall.
  destruct (permits s) eqn:P.
  - assert (F : for_tweets names tweets (fetched_state r s) = (inr tt, fetched_state r s, [])).
    { apply for_tweets_all_seen. intros t Ht. unfold fetched_state; simpl.
      rewrite gate_state_seen. by apply Hall. }
    rewrite (iteration_completes _ _ _ _ tweets) by (try assumption; by rewrite F).
    projections. rewrite F. projections.
    rewrite sink_calls_app, sink_calls_gate.
    rewrite (sink_calls_app _ [EvRequest; EvRecord; found_event tweets]), sink_calls_prelude.
    simpl. by rewrite sink_calls_app, sink_calls_trim, sink_calls_waiting.
  - rewrite iteration_closed by assumption. projections.
    by rewrite sink_calls_app, sink_calls_gate, sink_calls_waiting.
Qed.

(** * The claims *)

(** C1. In every run of [monitor_tweets], whatever the fetch responses, two
    deliveries of one post id have a clear of the dedup set between them; a
    delivery is one sink invocation; and an iteration that follows the run
    and fetches only ids delivered and not cleared since invokes the sink
    zero times. *)
Theorem C1_delivered_at_most_once (v : variant) (user_map : user_map_t) (t0 : Q)
    (rs : list response) :
  let run := monitor_tweets v user_map t0 rs in
  (∀ t1 t u t2 t' u' t3,
     trace run = (t1 ++ EvDeliver t u :: t2 ++ EvDeliver t' u' :: t3)%list →
     tweet_id t' = tweet_id t → EvClear ∈ t2) ∧
  (∀ t u, sink_calls v [EvDeliver t u] = 1%nat) ∧
  (∀ r tweets,
     get_latest_tweets_batch r = inr tweets →
     (∀ t, t ∈ tweets → tweet_id t ∈ pending ∅ (trace run)) →
     sink_calls v (trace (iteration v (id_to_username user_map) r (final run))) = 0%nat).
Proof.
  intros run. unfold run. rewrite monitor_tweets_run. projections.
  destruct (while_true_respects v (id_to_username user_map) rs (initial t0) ∅) as [R1 R2];
    [apply empty_subseteq|].
  split; [|split].
  - intros t1 t u t2 t' u' t3 E Hid.
    assert (R : respects ∅ (EvStart :: trace (while_true v (id_to_username user_map) rs (initial t0))))
      by (split; [exact I | exact R1]).
    rewrite E in R. apply respects_app in R as [_ R]. destruct R as [_ R].
    eapply (respects_pending_clear _ _ R); [reflexivity|].
    rewrite Hid. simpl. apply elem_of_union_l, elem_of_singleton. reflexivity.
  - apply sink_calls_deliver.
  - intros r tweets G Hall. apply (iteration_nothing_new _ _ _ _ tweets G).
    intros t Ht. apply R2. exact (Hall t Ht).
Qed.

(** The scenario of the specification: [p1] is fetched twice. *)
Lemma C1_witness :
  sink_calls Telegram
    (trace (iteration Telegram (id_to_username [("a", "1"); ("b", "2")])
              (Response 200 "" (Some [Tweet "p1" "1" "hi"]) 0)
              (final (monitor_tweets Telegram [("a", "1"); ("b", "2")] 0
                        [Response 200 "" (Some [Tweet "p1" "1" "hi"]) 0])))) = 0%nat.
Proof.
  apply (proj2 (proj2 (C1_delivered_at_most_once Telegram [("a", "1"); ("b", "2")] 0
                  [Response 200 "" (Some [Tweet "p1" "1" "hi"]) 0]))
           _ [Tweet "p1" "1" "hi"]).
  - reflexivity.
  - intros t Ht. apply list_elem_of_singleton in Ht. subst t.
    apply (bool_decide_unpack _). vm_compute. exact I.
Defined.

(** ** The gate in the trace of an iteration *)

Lemma gate_free_not_in tr e : gate_free tr → is_gate_event e = true → e ∉ tr.
Proof.
  intros H He Hin. unfold gate_free in H. rewrite Forall_forall in H.
  specialize (H e Hin). congruence.
Qed.

Lemma quiet_gate_free tr : quiet tr → gate_free tr.
Proof. intros H. eapply Forall_impl; [exact H|]. by intros []. Qed.

Lemma delivering_gate_free tr : delivering tr → gate_free tr.
Proof. intros H. eapply Forall_impl; [exact H|]. by intros []. Qed.

Lemma handler_gate_free v e s : gate_free (trace (handler v e s)).
Proof.
  destruct (handler_cases v e s) as [[_ E]|[(_ & _ & E)|(_ & _ & E)]]; rewrite E;
    repeat constructor.
Qed.

Lemma trim_gate_free s : gate_free (trim_trace s).
Proof. unfold trim_trace. destruct (1000 <? _); repeat constructor. Qed.

Lemma waiting_gate_free i s : gate_free (trace (countdown i s) ++ [EvClearLine]).
Proof. apply Forall_app_2; [apply quiet_gate_free, countdown_quiet | repeat constructor]. Qed.

(** The trace of an iteration: the reset if any, the request if permitted,
    and events that are neither. *)
Lemma iteration_gate_shape v names r s :
  ∃ rest, gate_free rest ∧
    trace (iteration v names r s) =
    (gate_trace s ++ (if permits s then [EvRequest] else []) ++ rest)%list.
Proof.
  destruct (iteration_outcome v names r s) as [P|e P G|tweets e P G F|tweets P G F].
  - rewrite iteration_closed by assumption. projections. rewrite P.
    eexists. split; [|reflexivity]. apply waiting_gate_free.
  - rewrite (iteration_fetch_raises _ _ _ _ e) by assumption. projections. rewrite P.
    eexists. split; [|reflexivity]. apply handler_gate_free.
  - rewrite (iteration_loop_raises _ _ _ _ tweets e) by assumption. projections. rewrite P.
    eexists. split; [|reflexivity].
    constructor; [reflexivity|]. constructor; [by destruct tweets|].
    apply Forall_app_2; [apply delivering_gate_free, for_tweets_frame | apply handler_gate_free].
  - rewrite (iteration_completes _ _ _ _ tweets) by assumption. projections. rewrite P.
    eexists. split; [|reflexivity].
    constructor; [reflexivity|]. constructor; [by destruct tweets|].
    apply Forall_app_2; [apply delivering_gate_free, for_tweets_frame|].
    apply Forall_app_2; [apply trim_gate_free | apply waiting_gate_free].
Qed.

Lemma iteration_requests_iff v names r s :
  EvRequest ∈ trace (iteration v names r s) ↔ permits s = true.
Proof.
  destruct (iteration_gate_shape v names r s) as (rest & Hf & ->).
  rewrite !elem_of_app. split.
  - intros [H|[H|H]].
    + unfold gate_trace in H. destruct (elapsed s); [|by apply elem_of_nil in H].
      apply list_elem_of_singleton in H. discriminate.
    + destruct (permits s); [reflexivity | by apply elem_of_nil in H].
    + by apply (gate_free_not_in _ _ Hf) in H.
  - intros ->. right. left. left.
Qed.

Lemma iteration_reset_iff v names r s :
  EvWindowReset ∈ trace (iteration v names r s) ↔ elapsed s = true.
Proof.
  destruct (iteration_gate_shape v names r s) as (rest & Hf & ->).
  rewrite !elem_of_app. split.
  - intros [H|[H|H]].
    + unfold gate_trace in H. destruct (elapsed s); [reflexivity | by apply elem_of_nil in H].
    + destruct (permits s); [|by apply elem_of_nil in H].
      apply list_elem_of_singleton in H. discriminate.
    + by apply (gate_free_not_in _ _ Hf) in H.
  - intros E. left. unfold gate_trace. rewrite E. left.
Qed.

Lemma elapsed_iff s :
  elapsed s = true ↔
  (inject_Z RATE_LIMIT_WINDOW <= clock s - window_start_time s)%Q.
Proof. apply Qle_bool_iff. Qed.

Lemma within_quota_prefix n tr p :
  within_quota n tr → p `prefix_of` tr → 0 <= recorded n p <= RATE_LIMIT_REQUESTS.
Proof.
  intros H [k ->]. apply within_quota_app in H as [_ H]. by eapply within_quota_start.
Qed.

Lemma monitor_tweets_quota v user_map t0 rs :
  within_quota 0 (trace (monitor_tweets v user_map t0 rs)) ∧
  requests_made (final (monitor_tweets v user_map t0 rs)) =
    recorded 0 (trace (monitor_tweets v user_map t0 rs)).
Proof.
  rewrite monitor_tweets_run. projections.
  destruct (while_true_quota v (id_to_username user_map) rs (initial t0)) as [Q1 Q2];
    [simpl; bounds|].
  split; [|exact Q2]. split; [bounds | exact Q1].
Qed.

(** C2. After any run, the next iteration resets the window (counter 0,
    window start = current time) exactly when at least [RATE_LIMIT_WINDOW]
    = 900 seconds have passed since the window start, and it issues the
    search request exactly when fewer than 15 requests have been recorded
    since the last reset, the reset of this iteration included. *)
Theorem C2_rate_window_gate (v : variant) (user_map : user_map_t) (t0 : Q)
    (rs : list response) (r : response) :
  let run := monitor_tweets v user_map t0 rs in
  let s := final run in
  let it := iteration v (id_to_username user_map) r s in
  (EvWindowReset ∈ trace it ↔
     (inject_Z RATE_LIMIT_WINDOW <= clock s - window_start_time s)%Q) ∧
  reset_if_elapsed (clock s) s = (inr tt, gate_state s, gate_trace s) ∧
  (EvWindowReset ∈ trace it →
     requests_made (gate_state s) = 0 ∧ window_start_time (gate_state s) = clock s) ∧
  (EvWindowReset ∉ trace it → gate_state s = s) ∧
  (EvRequest ∈ trace it ↔
     recorded 0 (trace run ++ gate_trace s)%list < RATE_LIMIT_REQUESTS) ∧
  RATE_LIMIT_REQUESTS = 15 ∧ RATE_LIMIT_WINDOW = 900.
Proof.
  intros run s it. unfold it.
  rewrite iteration_reset_iff, iteration_requests_iff.
  destruct (monitor_tweets_quota v user_map t0 rs) as [_ Q]. fold run s in Q.
  conj.
  - apply elapsed_iff.
  - apply reset_if_elapsed_run.
  - intros E. unfold gate_state. by rewrite E.
  - intros E. unfold gate_state. by destruct (elapsed s).
  - rewrite recorded_app, <- Q, <- gate_state_requests. unfold permits. apply Z.ltb_lt.
  - reflexivity.
  - reflexivity.
Qed.

(** After one successful check the next iteration issues its request. *)
Lemma C2_witness :
  EvRequest ∈
    trace (iteration Telegram (id_to_username [("a", "1"); ("b", "2")])
             (Response 200 "" None 0)
             (final (monitor_tweets Telegram [("a", "1"); ("b", "2")] 0
                       [Response 200 "" (Some [Tweet "p1" "1" "hi"]) 0]))).
Proof.
  apply (proj1 (proj2 (proj2 (proj2 (proj2
           (C2_rate_window_gate Telegram [("a", "1"); ("b", "2")] 0
              [Response 200 "" (Some [Tweet "p1" "1" "hi"]) 0]
              (Response 200 "" None 0))))))).
  vm_compute. reflexivity.
Defined.

(** C8. At every point of every run the request counter, as the recorded
    requests and resets give it, is between 0 and 15; a request is recorded
    only where the counter was below 15; and the variable [requests_made]
    at the end of the run is that counter. *)
Theorem C8_counter_within_quota (v : variant) (user_map : user_map_t) (t0 : Q)
    (rs : list response) :
  let run := monitor_tweets v user_map t0 rs in
  (∀ p, p `prefix_of` trace run → 0 <= recorded 0 p <= 15) ∧
  (∀ p, (p ++ [EvRecord])%list `prefix_of` trace run → recorded 0 p < 15) ∧
  requests_made (final run) = recorded 0 (trace run) ∧
  0 <= requests_made (final run) <= 15 ∧
  requests_made (initial t0) = 0.
Proof.
  intros run. destruct (monitor_tweets_quota v user_map t0 rs) as [Q1 Q2]. fold run in Q1, Q2.
  assert (Hp : ∀ p, p `prefix_of` trace run → 0 <= recorded 0 p <= 15).
  { intros p Hp. exact (within_quota_prefix _ _ _ Q1 Hp). }
  split; [exact Hp|]. split; [|split; [exact Q2|split; [|reflexivity]]].
  - intros p H. specialize (Hp _ H). rewrite recorded_app in Hp. simpl in Hp. lia.
  - rewrite Q2. apply Hp. reflexivity.
Qed.

(** Sixteen checks at one-minute intervals: the counter of the whole trace. *)
Lemma C8_witness :
  0 <= recorded 0 (trace (monitor_tweets Telegram [("a", "1")] 0
                            (replicate 16 (Response 200 "" None 0)))) <= 15.
Proof.
  apply (proj1 (C8_counter_within_quota Telegram [("a", "1")] 0
                  (replicate 16 (Response 200 "" None 0)))).
  reflexivity.
Defined.

(** ** Sleeping and truncation *)

Lemma sleeps_app t1 t2 : sleeps (t1 ++ t2) = (sleeps t1 ++ sleeps t2)%list.
Proof.
  induction t1 as [|e t1 IH]; [reflexivity|].
  destruct e; simpl; by rewrite ?IH.
Qed.

Lemma sleeps_gate s : sleeps (gate_trace s) = [].
Proof. unfold gate_trace. by destruct (elapsed s). Qed.

(** [int(x)] is positive exactly from 1 on, and then it is the floor. *)
Lemma int_positive (x : Q) :
  0 < PyStr.int x → (inject_Z (PyStr.int x) <= x ∧ x < inject_Z (PyStr.int x) + 1)%Q.
Proof.
  destruct x as [a d]. unfold PyStr.int, Qle, Qlt. simpl. intros H.
  assert (Ha : 0 <= a).
  { destruct (Z_lt_le_dec a 0) as [Hn|]; [|assumption].
    pose proof (Z.quot_opp_l a (Z.pos d) ltac:(lia)) as Ho.
    pose proof (Z.quot_pos (- a) (Z.pos d) ltac:(lia) ltac:(lia)). lia. }
  rewrite Z.quot_div_nonneg in * by lia.
  pose proof (Z.mul_div_le a (Z.pos d) ltac:(lia)).
  pose proof (Z.mul_succ_div_gt a (Z.pos d) ltac:(lia)).
  split; nia.
Qed.

Lemma int_not_positive (x : Q) : PyStr.int x <= 0 → (x < 1)%Q.
Proof.
  destruct x as [a d]. unfold PyStr.int, Qlt. simpl. intros H.
  destruct (Z_lt_le_dec a (Z.pos d)) as [Hlt|Hge]; [lia|].
  rewrite Z.quot_div_nonneg in H by lia.
  pose proof (Z.div_le_lower_bound a (Z.pos d) 1 ltac:(lia) ltac:(lia)). lia.
Qed.

(** C3 as first stated fails: with the window started at 0 and the clock at
    0.5 when the 429 is caught, 899.5 seconds of the window remain and the
    loop sleeps 899. *)
Lemma C3_counterexample :
  let s := State ∅ 3 0 (1 # 2) in
  let r := Response 429 "" None 0 in
  let caught := failed_state r s in
  let remaining :=
    (window_start_time caught + inject_Z RATE_LIMIT_WINDOW - clock caught)%Q in
  permits s = true ∧
  get_latest_tweets_batch r = inl (Exception "Rate limit exceeded") ∧
  sleeps (trace (iteration Telegram ∅ r s)) = [899] ∧
  ¬ (inject_Z 899 == remaining)%Q.
Proof.
  repeat split.
  vm_compute. discriminate.
Qed.

(** C3, amended. When the fetcher raises an error that the handler
    classifies as quota exceeded, the iteration ends without exception with
    the counter at 0 and the window start equal to the clock at that moment.
    Before the reset it sleeps [int(window_start_time + 900 - now)] seconds,
    the remaining window time truncated to whole seconds, and it does not
    sleep when that integer is not positive, that is, when less than one
    second remains. *)
Theorem C3_quota_recovery (v : variant) (names : gmap string string) (s : state)
    (r : response) (e : exn) :
  permits s = true →
  get_latest_tweets_batch r = inl e →
  is_rate_limit e = true →
  let it := iteration v names r s in
  let caught := failed_state r s in
  let remaining :=
    (window_start_time caught + inject_Z RATE_LIMIT_WINDOW - clock caught)%Q in
  let w := PyStr.int remaining in
  result it = inr tt ∧
  requests_made (final it) = 0 ∧
  window_start_time (final it) = clock (final it) ∧
  clock (final it) = (if 0 <? w then clock caught + inject_Z w else clock caught)%Q ∧
  sleeps (trace it) = (if 0 <? w then [w] else []) ∧
  (0 < w → (inject_Z w <= remaining ∧ remaining < inject_Z w + 1)%Q) ∧
  (w <= 0 → (remaining < 1)%Q).
Proof.
  intros P G R it caught remaining w. unfold it.
  rewrite (iteration_fetch_raises _ _ _ _ e) by assumption. projections.
  fold caught. rewrite !sleeps_app, sleeps_gate.
  change (wait_time caught) with w in *.
  split; [reflexivity|].
  destruct (Z_lt_le_dec 0 w) as [W|W].
  - rewrite (handler_rate_limit_wait v e caught R W). projections.
    change (wait_time caught) with w.
    apply Z.ltb_lt in W as W'. rewrite W'.
    conj; try reflexivity; try (intros; lia).
    intros _. apply (int_positive remaining W).
  - rewrite (handler_rate_limit_nowait v e caught R W). projections.
    apply Z.ltb_ge in W as W'. rewrite W'.
    conj; try reflexivity; try (intros; lia).
    intros _. apply (int_not_positive remaining W).
Qed.

(** A 429 caught 100.25 seconds into the window: the loop sleeps 799 seconds. *)
Lemma C3_witness :
  let s := State ∅ 3 0 (401 # 4) in
  let r := Response 429 "" None 0 in
  requests_made (final (iteration Audio ∅ r s)) = 0 ∧
  sleeps (trace (iteration Audio ∅ r s)) = [799] ∧
  clock (final (iteration Audio ∅ r s)) = ((401 # 4) + 0 + inject_Z 799)%Q.
Proof.
  intros s r.
  pose proof (C3_quota_recovery Audio ∅ s r (Exception "Rate limit exceeded")
                eq_refl eq_refl eq_refl) as H.
  cbv zeta in H. destruct H as (_ & H1 & _ & H2 & H3 & _).
  split; [exact H1|]. split; [exact H3 | exact H2].
Defined.

(** ** The clear of the dedup set *)

Lemma seen_free_not_in tr e : seen_free tr → touches_seen e = true → e ∉ tr.
Proof.
  intros H He Hin. unfold seen_free in H. rewrite Forall_forall in H.
  specialize (H e Hin). congruence.
Qed.

Lemma for_tweets_delivering names tweets s : delivering (trace (for_tweets names tweets s)).
Proof. apply for_tweets_frame. Qed.

(** C4. When an iteration has fetched posts and gone through all of them,
    a dedup set of more than 1000 ids is cleared to empty, and one of at
    most 1000 ids is left as it is; after a clear the next iteration meets
    an empty set, so that the first post it fetches is delivered whatever
    its id. *)
Theorem C4_dedup_set_cleared (v : variant) (names : gmap string string) (s : state)
    (r : response) (tweets : list tweet) :
  permits s = true →
  get_latest_tweets_batch r = inr tweets →
  result (for_tweets names tweets (fetched_state r s)) = inr tt →
  let seen1 := seen_tweets (final (for_tweets names tweets (fetched_state r s))) in
  let it := iteration v names r s in
  ((1000 < size seen1)%nat → seen_tweets (final it) = ∅ ∧ EvClear ∈ trace it) ∧
  ((size seen1 <= 1000)%nat → seen_tweets (final it) = seen1 ∧ EvClear ∉ trace it) ∧
  ((1000 < size seen1)%nat →
   ∀ r' t rest u,
     permits (final it) = true →
     get_latest_tweets_batch r' = inr (t :: rest) →
     names !! tweet_author_id t = Some u →
     EvDeliver t u ∈ trace (iteration v names r' (final it))).
Proof.
  intros P G F seen1 it.
  assert (E : iteration v names r s = _) by exact (iteration_completes v names r s tweets P G F).
  assert (Hbig : (1000 < size seen1)%nat → seen_tweets (final it) = ∅ ∧ EvClear ∈ trace it).
  { intros Hs. unfold it. rewrite E. projections. rewrite countdown_seen.
    unfold trimmed, trim_trace. fold seen1.
    assert (Hb : (1000 <? Z.of_nat (size seen1)) = true) by (apply Z.ltb_lt; lia).
    rewrite Hb. split; [reflexivity|].
    rewrite !elem_of_app. right. right. right. left. left. }
  split; [exact Hbig|]. split.
  - intros Hs. unfold it. rewrite E. projections. rewrite countdown_seen.
    unfold trimmed, trim_trace. fold seen1.
    assert (Hb : (1000 <? Z.of_nat (size seen1)) = false) by (apply Z.ltb_ge; lia).
    rewrite Hb. split; [reflexivity|].
    rewrite !elem_of_app. intros [H|[H|[H|[H|[H|H]]]]].
    + by apply (seen_free_not_in _ _ (gate_trace_seen_free s)) in H.
    + by apply (seen_free_not_in _ _ (prelude_seen_free tweets)) in H.
    + by apply (delivering_not_in _ _ (for_tweets_delivering _ _ _)) in H.
    + by apply elem_of_nil in H.
    + by apply (seen_free_not_in _ _ (countdown_seen_free _ _)) in H.
    + by apply (seen_free_not_in _ _ clear_line_seen_free) in H.
  - intros Hs r' t rest u P' G' N. destruct (Hbig Hs) as [Hempty _].
    set (s' := final it) in *.
    assert (Hnew : tweet_id t ∉ seen_tweets (fetched_state r' s')).
    { unfold fetched_state; simpl. rewrite gate_state_seen, Hempty. apply not_elem_of_empty. }
    pose proof (for_tweets_cons_known names t rest _ u Hnew N) as Ef.
    destruct (result (for_tweets names (t :: rest) (fetched_state r' s'))) as [e|[]] eqn:F'.
    + rewrite (iteration_loop_raises _ _ _ _ (t :: rest) e) by assumption. projections.
      rewrite Ef. projections. rewrite !elem_of_app. right. right. left. left.
    + rewrite (iteration_completes _ _ _ _ (t :: rest)) by assumption. projections.
      rewrite Ef. projections. rewrite !elem_of_app. right. right. left. left.
Qed.

Lemma numbered_ids_size n : size (numbered_ids n) = n.
Proof.
  unfold numbered_ids. rewrite size_list_to_set.
  - by rewrite length_map, length_seq.
  - apply (NoDup_fmap_2 (fun i : nat => pretty i)), NoDup_seq.
Qed.

Lemma numbered_ids_fresh n : pretty n ∉ numbered_ids n.
Proof.
  unfold numbered_ids. rewrite elem_of_list_to_set. intros H.
  apply list_elem_of_In, in_map_iff in H as (i & Hi & Hin).
  apply (inj pretty) in Hi. subst i. apply in_seq in Hin. lia.
Qed.

(** One new post of a known author on top of 1000 ids makes 1001. *)
Lemma one_more_than_1000 names r s t u :
  names !! tweet_author_id t = Some u →
  tweet_id t ∉ seen_tweets s →
  size (seen_tweets s) = 1000%nat →
  result (for_tweets names [t] (fetched_state r s)) = inr tt ∧
  (1000 < size (seen_tweets (final (for_tweets names [t] (fetched_state r s)))))%nat.
Proof.
  intros N Hnew Hsize.
  assert (Hf : tweet_id t ∉ seen_tweets (fetched_state r s)).
  { unfold fetched_state; simpl. by rewrite gate_state_seen. }
  rewrite (for_tweets_cons_known names t [] _ u Hf N). projections.
  split; [reflexivity|].
  change (1000 < size ({[tweet_id t]} ∪ seen_tweets (fetched_state r s)))%nat.
  rewrite size_union by (by apply disjoint_singleton_l).
  rewrite size_singleton. unfold fetched_state; simpl. rewrite gate_state_seen. lia.
Qed.

(** A set of the 1000 ids "0" to "999" and the new post "1000": 1001 ids,
    cleared. *)
Lemma C4_witness :
  let s := State (numbered_ids 1000) 0 0 0 in
  let r := Response 200 "" (Some [Tweet (pretty 1000%nat) "1" "hi"]) 0 in
  seen_tweets (final (iteration Telegram (id_to_username [("a", "1")]) r s)) = ∅ ∧
  EvClear ∈ trace (iteration Telegram (id_to_username [("a", "1")]) r s).
Proof.
  intros s r.
  exact (proj1 (C4_dedup_set_cleared Telegram (id_to_username [("a", "1")]) s r
                  [Tweet (pretty 1000%nat) "1" "hi"] eq_refl eq_refl
                  (proj1 (one_more_than_1000 (id_to_username [("a", "1")]) r s
                            (Tweet (pretty 1000%nat) "1" "hi") "a" eq_refl
                            (numbered_ids_fresh 1000) (numbered_ids_size 1000))))
               (proj2 (one_more_than_1000 (id_to_username [("a", "1")]) r s
                         (Tweet (pretty 1000%nat) "1" "hi") "a" eq_refl
                         (numbered_ids_fresh 1000) (numbered_ids_size 1000)))).
Defined.

(** ** Substrings *)

Lemma prefix_app_r (n a b : string) :
  String.prefix n a = true → String.prefix n (a ++ b) = true.
Proof.
  revert a. induction n as [|c n IH]; intros a H; [by destruct (a ++ b)|].
  destruct a as [|d a]; [discriminate|]. simpl in *.
  destruct (ascii_dec c d); [by apply IH | discriminate].
Qed.

Lemma str_in_empty (h : string) : PyStr.str_in "" h = true.
Proof. by destruct h. Qed.

Lemma str_in_app_l (n a b : string) :
  PyStr.str_in n a = true → PyStr.str_in n (a ++ b) = true.
Proof.
  induction a as [|c a IH]; intros H.
  - destruct n; [apply str_in_empty | discriminate].
  - change (String c a ++ b) with (String c (a ++ b)).
    cbn [PyStr.str_in] in *. apply orb_true_iff in H as [H|H]; apply orb_true_iff.
    + left. exact (prefix_app_r _ (String c a) b H).
    + right. by apply IH.
Qed.

Lemma str_in_app_r (n a b : string) :
  PyStr.str_in n b = true → PyStr.str_in n (a ++ b) = true.
Proof.
  intros H. induction a as [|c a IH]; [exact H|].
  change (String c a ++ b) with (String c (a ++ b)).
  cbn [PyStr.str_in]. apply orb_true_iff. by right.
Qed.

Lemma seen_free_deliveries tr : seen_free tr → deliveries tr = [].
Proof.
  intros H. induction H as [|e tr' He _ IH]; [reflexivity|].
  unfold deliveries in *. rewrite filter_cons. destruct e; try discriminate; simpl; exact IH.
Qed.

Lemma deliveries_trim s : deliveries (trim_trace s) = [].
Proof. unfold trim_trace. by destruct (1000 <? _). Qed.

Lemma sink_io_app v now t1 t2 :
  sink_io v now (t1 ++ t2) = (sink_io v now t1 ++ sink_io v now t2)%list.
Proof. unfold sink_io. by rewrite flat_map_app, filter_app. Qed.

Lemma sink_io_event v now e : sink_calls v [e] = 0%nat → sink_io v now [e] = [].
Proof. destruct e, v; try discriminate; reflexivity. Qed.

Lemma sink_io_silent v now tr : sink_calls v tr = 0%nat → sink_io v now tr = [].
Proof.
  induction tr as [|e tr IH]; [reflexivity|].
  change (e :: tr) with ([e] ++ tr)%list. rewrite sink_calls_app, sink_io_app.
  intros H. rewrite (sink_io_event v now e), IH by lia. reflexivity.
Qed.

Lemma sink_io_one v now t1 e t2 :
  sink_calls v t1 = 0%nat → sink_calls v t2 = 0%nat →
  sink_io v now (t1 ++ [e] ++ t2) = sink_io v now [e].
Proof.
  intros H1 H2.
  rewrite !sink_io_app, (sink_io_silent _ _ t1 H1), (sink_io_silent _ _ t2 H2).
  by rewrite app_nil_r.
Qed.

Lemma single_post_iteration (v : variant) (s : state) (body : string) (rtt : Q) :
  let names := id_to_username [("a", "1"); ("b", "2")] in
  let p1 := Tweet "p1" "1" "hi" in
  let it := iteration v names (Response 200 body (Some [p1]) rtt) s in
  permits s = true →
  "p1" ∉ seen_tweets s →
  deliveries (trace it) = [EvDeliver p1 "a"] ∧
  sink_calls v (trace it) = 1%nat ∧
  (∀ now, sink_io v now (trace it) = sink_io v now [EvDeliver p1 "a"]) ∧
  EvDeliver p1 "a" ∈ trace it.
Proof.
  intros names p1 it P Hnew.
  assert (G : get_latest_tweets_batch (Response 200 body (Some [p1]) rtt) = inr [p1])
    by reflexivity.
  set (r := Response 200 body (Some [p1]) rtt) in *.
  assert (F : for_tweets names [p1] (fetched_state r s) =
              (inr tt, add_seen "p1" (fetched_state r s), [EvDeliver p1 "a"])).
  { rewrite (for_tweets_cons_known names p1 [] _ "a"); [reflexivity| |reflexivity].
    unfold fetched_state; simpl. by rewrite gate_state_seen. }
  assert (E : trace it =
    (gate_trace s ++ [EvRequest; EvRecord; found_event [p1]] ++ [EvDeliver p1 "a"] ++
     trim_trace (add_seen "p1" (fetched_state r s)) ++
     trace (countdown (Z.to_nat (CHECK_INTERVAL v))
              (trimmed (add_seen "p1" (fetched_state r s)))) ++ [EvClearLine])%list).
  { unfold it. rewrite (iteration_completes _ _ _ _ [p1] P G) by (by rewrite F).
    projections. rewrite F. projections. reflexivity. }
  split; [|split; [|split]].
  - rewrite E, !deliveries_app, (seen_free_deliveries _ (gate_trace_seen_free s)),
      (seen_free_deliveries _ (prelude_seen_free [p1])), deliveries_trim,
      (seen_free_deliveries _ (countdown_seen_free _ _)). reflexivity.
  - rewrite E, sink_calls_app, sink_calls_gate.
    rewrite (sink_calls_app _ [EvRequest; EvRecord; found_event [p1]]), sink_calls_prelude.
    rewrite (sink_calls_app _ [EvDeliver p1 "a"]), sink_calls_deliver.
    by rewrite sink_calls_app, sink_calls_trim, sink_calls_waiting.
  - intros now. rewrite E, (app_assoc (gate_trace s)).
    apply sink_io_one.
    + by rewrite sink_calls_app, sink_calls_gate, sink_calls_prelude.
    + by rewrite sink_calls_app, sink_calls_trim, sink_calls_waiting.
  - rewrite E, !elem_of_app. right. right. left. apply list_elem_of_singleton. reflexivity.
Qed.

(** C5, amended. With handles a, b resolved to ids 1, 2, an iteration that
    fetches exactly the post (p1, author 1, text hi), with p1 not in the
    dedup set, makes one delivery and invokes the sink exactly once.  In
    kol_moniter.py the sink receives the Telegram message, which names @a,
    holds the text hi and the permalink
    https://twitter.com/i/web/status/p1; in monitor_kol_tweets.py the sink
    is the sound, played once with no content, and the notification with
    @a, hi and that permalink is logged and printed. *)
Theorem C5_single_notification (v : variant) (s : state) (body : string) (rtt : Q) :
  let names := id_to_username [("a", "1"); ("b", "2")] in
  let p1 := Tweet "p1" "1" "hi" in
  let it := iteration v names (Response 200 body (Some [p1]) rtt) s in
  let link := "https://twitter.com/i/web/status/p1" in
  let message :=
    "🔔 New Tweet from @a!" ++ PyStr.nl ++ PyStr.nl ++ "📝 hi" ++ PyStr.nl ++ PyStr.nl ++
    "🔗 " ++ link in
  let logged now := "New tweet from @a at " ++ now ++ ": hi" ++ PyStr.nl ++ "URL: " ++ link in
  permits s = true →
  "p1" ∉ seen_tweets s →
  deliveries (trace it) = [EvDeliver p1 "a"] ∧
  sink_calls v (trace it) = 1%nat ∧
  (∀ now, sink_io v now (trace it) =
          match v with Telegram => [Send_telegram message] | Audio => [Play_sound] end) ∧
  tweet_url p1 = link ∧
  telegram_message p1 "a" = message ∧
  PyStr.str_in "@a" message = true ∧
  PyStr.str_in "hi" message = true ∧
  PyStr.str_in link message = true ∧
  PyStr.str_in "p1" link = true ∧
  (∀ now, io_of Telegram now (EvDeliver p1 "a") =
          [Send_telegram message; Log_info "Sent alert for tweet p1 to Telegram"]) ∧
  (∀ now, io_of Audio now (EvDeliver p1 "a") =
          [Log_info (logged now);
           Print (PyStr.nl ++ "🔔 New Tweet from @a!" ++ PyStr.nl);
           Print ("📝 hi" ++ PyStr.nl);
           Print ("🔗 " ++ link ++ PyStr.nl ++ PyStr.nl);
           Play_sound]) ∧
  (∀ now, io_of v now (EvDeliver p1 "a") ⊆ flat_map (io_of v now) (trace it)) ∧
  (∀ now, PyStr.str_in "@a" (logged now) = true ∧
          PyStr.str_in "hi" (logged now) = true ∧
          PyStr.str_in link (logged now) = true).
Proof.
  intros names p1 it link message logged P Hnew.
  destruct (single_post_iteration v s body rtt P Hnew) as (D & N & S & I).
  fold names p1 it in D, N, S, I.
  split; [exact D|]. split; [exact N|]. split.
  - intros now. rewrite S. by destruct v.
  - conj; try (intros now); try reflexivity.
    + intros a Ha. apply list_elem_of_In, in_flat_map. exists (EvDeliver p1 "a").
      split; by apply list_elem_of_In.
    + conj.
      * reflexivity.
      * unfold logged. do 2 apply str_in_app_r. reflexivity.
      * unfold logged. do 2 apply str_in_app_r. reflexivity.
Qed.

(** The scenario from the start of the loop, in both variants. *)
Lemma C5_witness :
  deliveries (trace (iteration Telegram (id_to_username [("a", "1"); ("b", "2")])
                       (Response 200 "" (Some [Tweet "p1" "1" "hi"]) 0) (initial 0))) =
    [EvDeliver (Tweet "p1" "1" "hi") "a"] ∧
  sink_calls Audio (trace (iteration Audio (id_to_username [("a", "1"); ("b", "2")])
                             (Response 200 "" (Some [Tweet "p1" "1" "hi"]) 0) (initial 0))) =
    1%nat.
Proof.
  split.
  - apply (C5_single_notification Telegram (initial 0) "" 0); [reflexivity|].
    apply not_elem_of_empty.
  - apply (C5_single_notification Audio (initial 0) "" 0); [reflexivity|].
    apply not_elem_of_empty.
Defined.

(** In monitor_kol_tweets.py the one thing the sink is called with is the
    sound: no sink call carries the handle, the text or the permalink. *)
Lemma C5_counterexample :
  let names := id_to_username [("a", "1"); ("b", "2")] in
  let p1 := Tweet "p1" "1" "hi" in
  let it := iteration Audio names (Response 200 "" (Some [p1]) 0) (initial 0) in
  permits (initial 0) = true ∧
  ("p1" ∉ seen_tweets (initial 0)) ∧
  deliveries (trace it) = [EvDeliver p1 "a"] ∧
  (∀ now, sink_io Audio now (trace it) = [Play_sound]) ∧
  (∀ now m, Send_telegram m ∉ flat_map (io_of Audio now) (trace it)).
Proof.
  intros names p1 it.
  assert (P : permits (initial 0) = true) by reflexivity.
  assert (Hnew : "p1" ∉ seen_tweets (initial 0)) by apply not_elem_of_empty.
  destruct (single_post_iteration Audio (initial 0) "" 0 P Hnew) as (D & _ & S & _).
  fold names p1 it in D, S.
  assert (H : ∀ now, sink_io Audio now (trace it) = [Play_sound]).
  { intros now. rewrite S. reflexivity. }
  split; [exact P|]. split; [exact Hnew|]. split; [exact D|]. split; [exact H|].
  intros now m Hm.
  assert (Hs : Send_telegram m ∈ sink_io Audio now (trace it)).
  { unfold sink_io. apply list_elem_of_filter. by split. }
  rewrite H in Hs. apply list_elem_of_singleton in Hs. discriminate.
Qed.

(** ** Classification of errors *)

Lemma lower_app (a b : string) : PyStr.lower (a ++ b) = PyStr.lower a ++ PyStr.lower b.
Proof. induction a as [|c a IH]; [reflexivity|]. simpl. by rewrite IH. Qed.

Lemma generic_failure_classified (txt : string) :
  is_rate_limit (Exception ("Failed to get tweets: " ++ txt)) =
  PyStr.str_in "rate limit" (PyStr.lower txt).
Proof.
  unfold is_rate_limit, str. rewrite lower_app.
  generalize (PyStr.lower txt). intros l. vm_compute. reflexivity.
Qed.

Lemma handler_forced_reset_iff v e s :
  EvForcedReset ∈ trace (handler v e s) ↔ is_rate_limit e = true.
Proof.
  destruct (handler_cases v e s) as [[R E]|[(R & _ & E)|(R & _ & E)]]; rewrite E, R;
    projections.
  - split; [|discriminate]. intros H.
    repeat (apply elem_of_cons in H as [H|H]; [discriminate|]). by apply elem_of_nil in H.
  - split; [reflexivity|]. intros _. do 3 right. left.
  - split; [reflexivity|]. intros _. right. left.
Qed.

(** C6. [get_latest_tweets_batch] raises [Exception("Rate limit exceeded")]
    exactly on status 429, raises [Exception("Failed to get tweets: " +
    response.text)] on every other status but 200, and returns the posts on
    200.  The handler takes its quota branch exactly when the lower-cased
    message of the caught error contains "rate limit"; the 429 error does,
    and a generic failure does exactly when its response text does. *)
Theorem C6_quota_signal_and_classification (r : response) :
  (get_latest_tweets_batch r = inl (Exception "Rate limit exceeded") ↔ status_code r = 429) ∧
  (status_code r ≠ 429 → status_code r ≠ 200 →
   get_latest_tweets_batch r = inl (Exception ("Failed to get tweets: " ++ resp_text r))) ∧
  (status_code r = 200 →
   get_latest_tweets_batch r = inr (match resp_data r with Some d => d | None => [] end)) ∧
  is_rate_limit (Exception "Rate limit exceeded") = true ∧
  (∀ v e s, EvForcedReset ∈ trace (handler v e s) ↔
            PyStr.str_in "rate limit" (PyStr.lower (str e)) = true) ∧
  (∀ txt, is_rate_limit (Exception ("Failed to get tweets: " ++ txt)) =
          PyStr.str_in "rate limit" (PyStr.lower txt)).
Proof.
  unfold get_latest_tweets_batch. conj.
  - split.
    + destruct (status_code r =? 429) eqn:E; [intros _; by apply Z.eqb_eq|].
      destruct (status_code r =? 200); simpl; intros H; discriminate.
    + intros ->. reflexivity.
  - intros H1 H2. apply Z.eqb_neq in H1, H2. by rewrite H1, H2.
  - intros ->. reflexivity.
  - reflexivity.
  - intros v e s. apply handler_forced_reset_iff.
  - apply generic_failure_classified.
Qed.

(** A 503 whose body mentions the rate limit is raised as a generic failure
    and classified as quota exceeded. *)
Lemma C6_witness :
  let r := Response 503 "Please respect the Rate Limit" None 0 in
  get_latest_tweets_batch r =
    inl (Exception "Failed to get tweets: Please respect the Rate Limit") ∧
  is_rate_limit (Exception "Failed to get tweets: Please respect the Rate Limit") = true.
Proof.
  intros r. split.
  - apply (proj1 (proj2 (C6_quota_signal_and_classification r))); discriminate.
  - exact (eq_trans
             (proj2 (proj2 (proj2 (proj2 (proj2 (C6_quota_signal_and_classification r)))))
                "Please respect the Rate Limit")
             eq_refl).
Defined.

(** ** Failures *)

(** C7 as first stated fails in monitor_kol_tweets.py: a 500 answer is
    reported by [logging.error] and [print] only, and the sound, which is
    the sink of that variant, is not played. *)
Lemma C7_counterexample :
  let r := Response 500 "boom" None 0 in
  let it := iteration Audio ∅ r (initial 0) in
  get_latest_tweets_batch r = inl (Exception "Failed to get tweets: boom") ∧
  is_rate_limit (Exception "Failed to get tweets: boom") = false ∧
  trace it = [EvRequest; EvError "Failed to get tweets: boom"; EvSleep 180] ∧
  sink_calls Audio (trace it) = 0%nat ∧
  (∀ now, filter (fun a => is_sink a = true) (flat_map (io_of Audio now) (trace it)) = []).
Proof.
  repeat split.
Qed.

(** C7, amended. When the fetcher raises an error that is not classified as
    quota exceeded, the handler reports the error, sleeps [CHECK_INTERVAL]
    seconds once, and the loop goes on with the next iteration; no exception
    leaves the loop.  The report is [logging.error] in both variants, then
    a Telegram message in kol_moniter.py (one sink invocation) and a console
    print in monitor_kol_tweets.py (no sink invocation). *)
Theorem C7_transient_failure_recovery (v : variant) (names : gmap string string)
    (s : state) (r : response) (e : exn) :
  permits s = true →
  get_latest_tweets_batch r = inl e →
  is_rate_limit e = false →
  let it := iteration v names r s in
  result it = inr tt ∧
  trace it = (gate_trace s ++ [EvRequest; EvError (str e); EvSleep (CHECK_INTERVAL v)])%list ∧
  sleeps (trace it) = [CHECK_INTERVAL v] ∧
  final it = advance (inject_Z (CHECK_INTERVAL v)) (failed_state r s) ∧
  (∀ now, io_of Telegram now (EvError (str e)) =
          [Log_error ("Error: " ++ str e); Send_telegram ("❌ Error: " ++ str e)]) ∧
  (∀ now, io_of Audio now (EvError (str e)) =
          [Log_error ("Error: " ++ str e);
           Print (PyStr.nl ++ "❌ Error: " ++ str e ++ PyStr.nl)]) ∧
  sink_calls v (trace it) = match v with Telegram => 1%nat | Audio => 0%nat end ∧
  (∀ rs, result (while_true v names (r :: rs) s) = inr tt ∧
         trace (while_true v names (r :: rs) s) =
           (trace it ++ trace (while_true v names rs (final it)))%list) ∧
  CHECK_INTERVAL Telegram = 60 ∧ CHECK_INTERVAL Audio = 180.
Proof.
  intros P G R it.
  assert (E : it = (inr tt, advance (inject_Z (CHECK_INTERVAL v)) (failed_state r s),
                    (gate_trace s ++ [EvRequest; EvError (str e); EvSleep (CHECK_INTERVAL v)])%list)).
  { unfold it. rewrite (iteration_fetch_raises _ _ _ _ e P G), (handler_other _ _ _ R).
    projections. reflexivity. }
  conj; try (rewrite E; projections); try reflexivity.
  - by rewrite sleeps_app, sleeps_gate.
  - rewrite sink_calls_app, sink_calls_gate. by destruct v.
  - intros rs. split; [apply while_true_result|].
    rewrite while_true_cons. projections. fold it. by rewrite E.
Qed.

(** A 500 answer at the start of the loop, in kol_moniter.py. *)
Lemma C7_witness :
  sleeps (trace (iteration Telegram ∅ (Response 500 "boom" None 0) (initial 0))) = [60] ∧
  sink_calls Telegram (trace (iteration Telegram ∅ (Response 500 "boom" None 0) (initial 0))) =
    1%nat.
Proof.
  pose proof (C7_transient_failure_recovery Telegram ∅ (initial 0)
                (Response 500 "boom" None 0) (Exception "Failed to get tweets: boom")
                eq_refl eq_refl eq_refl) as H.
  cbv zeta in H. destruct H as (_ & _ & H1 & _ & _ & _ & H2 & _).
  split; [exact H1 | exact H2].
Defined.

(** C9, amended. When the fetcher raises, the iteration leaves the dedup
    set as it was, records no request and delivers no post: the request
    counter is what the reset test left, or 0 after the forced reset of the
    quota branch.  The sink is not silent in kol_moniter.py: it is called
    once, with the error report; monitor_kol_tweets.py does not call it. *)
Theorem C9_failed_fetch_leaves_state (v : variant) (names : gmap string string)
    (s : state) (r : response) (e : exn) :
  permits s = true →
  get_latest_tweets_batch r = inl e →
  let it := iteration v names r s in
  EvRequest ∈ trace it ∧
  seen_tweets (final it) = seen_tweets s ∧
  (EvRecord ∉ trace it) ∧
  deliveries (trace it) = [] ∧
  requests_made (final it) =
    (if is_rate_limit e then 0 else requests_made (gate_state s)) ∧
  sink_calls v (trace it) = match v with Telegram => 1%nat | Audio => 0%nat end ∧
  (∀ now, sink_io v now (trace it) =
          match v with
          | Telegram => [Send_telegram ("❌ Error: " ++ str e)]
          | Audio => []
          end).
Proof.
  intros P G it. unfold it.
  rewrite (iteration_fetch_raises _ _ _ _ e P G). projections.
  conj.
  - rewrite !elem_of_app. right. left. left.
  - rewrite handler_seen. unfold failed_state; simpl. apply gate_state_seen.
  - rewrite !elem_of_app. intros [H|[H|H]].
    + unfold gate_trace in H. destruct (elapsed s); [|by apply elem_of_nil in H].
      apply list_elem_of_singleton in H. discriminate.
    + apply list_elem_of_singleton in H. discriminate.
    + revert H.
      destruct (handler_cases v e (failed_state r s)) as [[_ E]|[(_ & _ & E)|(_ & _ & E)]];
        rewrite E; projections; intros H;
        repeat (apply elem_of_cons in H as [H|H]; [discriminate|]); by apply elem_of_nil in H.
  - assert (Hs : seen_free ([EvRequest] ++ trace (handler v e (failed_state r s)))).
    { apply Forall_app_2; [repeat constructor | apply handler_seen_free]. }
    by rewrite deliveries_app, (seen_free_deliveries _ (gate_trace_seen_free s)),
      (seen_free_deliveries _ Hs).
  - destruct (handler_cases v e (failed_state r s)) as [[R E]|[(R & _ & E)|(R & _ & E)]];
      by rewrite E, R.
  - rewrite sink_calls_app, sink_calls_gate.
    destruct (handler_cases v e (failed_state r s)) as [[_ E]|[(_ & _ & E)|(_ & _ & E)]];
      rewrite E; by destruct v.
  - intros now. rewrite sink_io_app, (sink_io_silent _ _ _ (sink_calls_gate v s)).
    destruct (handler_cases v e (failed_state r s)) as [[_ E]|[(_ & _ & E)|(_ & _ & E)]];
      rewrite E; by destruct v.
Qed.

(** A 429 after three recorded requests, caught with the window still open. *)
Lemma C9_witness :
  let s := State {["p0"]} 3 0 10 in
  let it := iteration Audio ∅ (Response 429 "" None 0) s in
  seen_tweets (final it) = {["p0"]} ∧ deliveries (trace it) = [] ∧ requests_made (final it) = 0.
Proof.
  intros s it.
  pose proof (C9_failed_fetch_leaves_state Audio ∅ s (Response 429 "" None 0)
                (Exception "Rate limit exceeded") eq_refl eq_refl) as H.
  cbv zeta in H. destruct H as (_ & H1 & _ & H2 & H3 & _).
  split; [exact H1|]. split; [exact H2 | exact H3].
Defined.

(** In kol_moniter.py a failed fetch does reach the sink: the 429 caught at
    the start of the loop sends the error report to Telegram. *)
Lemma C9_counterexample :
  let r := Response 429 "" None 0 in
  let it := iteration Telegram ∅ r (initial 0) in
  permits (initial 0) = true ∧
  get_latest_tweets_batch r = inl (Exception "Rate limit exceeded") ∧
  trace it = [EvRequest; EvError "Rate limit exceeded"; EvRateLimitHit 900; EvSleep 900;
              EvForcedReset] ∧
  deliveries (trace it) = [] ∧
  sink_calls Telegram (trace it) = 1%nat ∧
  (∀ now, sink_io Telegram now (trace it) = [Send_telegram "❌ Error: Rate limit exceeded"]).
Proof. repeat split. Qed.

(** ** Ids are marked before delivery *)

(** What the for loop delivers is in the dedup set when the loop ends. *)
Lemma for_tweets_delivered_seen names tweets s t u :
  EvDeliver t u ∈ trace (for_tweets names tweets s) →
  tweet_id t ∈ seen_tweets (final (for_tweets names tweets s)).
Proof.
  revert s. induction tweets as [|t0 rest IH]; intros s H.
  - by apply elem_of_nil in H.
  - destruct (for_tweets_cases names t0 rest s) as [[Hs E]|[(Hs & N & E)|(u0 & Hs & N & E)]];
      rewrite E in *.
    + by apply IH.
    + by apply elem_of_nil in H.
    + revert H. projections. intros H. apply elem_of_cons in H as [H|H]; [|by apply IH].
      injection H as -> ->.
      destruct (for_tweets_frame names rest (add_seen (tweet_id t0) s)) as (_ & _ & _ & Hsub & _).
      apply Hsub. simpl. apply elem_of_union_l, elem_of_singleton. reflexivity.
Qed.

(** C10. When the for loop reaches a post whose id is not in the dedup set
    and whose author id is not in [id_to_username], the lookup raises after
    the id has been added: the iteration ends with the id in the set, the
    error reported and the post not delivered, and in every continuation of
    the loop a delivery of that id comes only after a clear of the set. *)
Theorem C10_id_marked_before_delivery (v : variant) (names : gmap string string)
    (s : state) (r : response) (pre : list tweet) (t : tweet) (post : list tweet) :
  permits s = true →
  get_latest_tweets_batch r = inr (pre ++ t :: post)%list →
  result (for_tweets names pre (fetched_state r s)) = inr tt →
  tweet_id t ∉ seen_tweets (final (for_tweets names pre (fetched_state r s))) →
  names !! tweet_author_id t = None →
  let it := iteration v names r s in
  for_tweets names (t :: post) (final (for_tweets names pre (fetched_state r s))) =
    (inl (KeyError (tweet_author_id t)),
     add_seen (tweet_id t) (final (for_tweets names pre (fetched_state r s))), []) ∧
  tweet_id t ∈ seen_tweets (final it) ∧
  EvError (PyStr.repr (tweet_author_id t)) ∈ trace it ∧
  (∀ t' u, EvDeliver t' u ∈ trace it → tweet_id t' ≠ tweet_id t) ∧
  (∀ rs t1 t' u t2,
     trace (while_true v names rs (final it)) = (t1 ++ EvDeliver t' u :: t2)%list →
     tweet_id t' = tweet_id t → EvClear ∈ t1).
Proof.
  intros P G F Hnew N it.
  set (s1 := final (for_tweets names pre (fetched_state r s))) in *.
  pose proof (for_tweets_cons_unknown names t post s1 Hnew N) as Et.
  pose proof (for_tweets_app names pre (t :: post) (fetched_state r s) F) as Ea.
  fold s1 in Ea. rewrite Et in Ea. revert Ea. projections. intros Ea.
  assert (E : it = _) by
    (unfold it; apply (iteration_loop_raises v names r s (pre ++ t :: post)
                         (KeyError (tweet_author_id t)) P G); by rewrite Ea).
  rewrite Ea in E. revert E. projections. rewrite app_nil_r. intros E.
  assert (Hin : tweet_id t ∈ seen_tweets (final it)).
  { rewrite E. projections. rewrite handler_seen. simpl.
    apply elem_of_union_l, elem_of_singleton. reflexivity. }
  split; [exact Et|]. split; [exact Hin|]. split; [|split].
  - rewrite E. projections. rewrite !elem_of_app. do 3 right.
    destruct (handler_cases v (KeyError (tweet_author_id t)) (add_seen (tweet_id t) s1))
      as [[_ Eh]|[(_ & _ & Eh)|(_ & _ & Eh)]]; rewrite Eh; left.
  - intros t' u Hd Hid. rewrite E in Hd. revert Hd. projections. rewrite !elem_of_app.
    intros [H|[H|[H|H]]].
    + by apply (seen_free_not_in _ _ (gate_trace_seen_free s)) in H.
    + by apply (seen_free_not_in _ _ (prelude_seen_free _)) in H.
    + apply for_tweets_delivered_seen in H. fold s1 in H. rewrite Hid in H. by apply Hnew.
    + by apply (seen_free_not_in _ _ (handler_seen_free _ _ _)) in H.
  - intros rs t1 t' u t2 Er Hid.
    destruct (while_true_respects v names rs (final it) {[tweet_id t]}) as [R _].
    { by apply singleton_subseteq_l. }
    eapply (respects_pending_clear _ _ R); [exact Er|].
    rewrite Hid. by apply elem_of_singleton.
Qed.

(** Post p2 of an unknown author between two posts of a known one: p2 is
    marked and is not delivered when it is fetched again. *)
Lemma C10_witness :
  let names := id_to_username [("a", "1")] in
  let r := Response 200 ""
             (Some [Tweet "p1" "1" "one"; Tweet "p2" "9" "two"; Tweet "p3" "1" "three"]) 0 in
  let it := iteration Telegram names r (initial 0) in
  "p2" ∈ seen_tweets (final it) ∧
  deliveries (trace it) = [EvDeliver (Tweet "p1" "1" "one") "a"] ∧
  deliveries (trace (while_true Telegram names [r] (final it))) =
    [EvDeliver (Tweet "p3" "1" "three") "a"].
Proof.
  intros names r it.
  pose proof (C10_id_marked_before_delivery Telegram names (initial 0) r
                [Tweet "p1" "1" "one"] (Tweet "p2" "9" "two") [Tweet "p3" "1" "three"]
                eq_refl eq_refl) as H.
  cbv zeta in H. destruct H as (_ & H & _).
  - vm_compute. reflexivity.
  - apply (bool_decide_unpack _). vm_compute. exact I.
  - vm_compute. reflexivity.
  - split; [exact H|]. split; vm_compute; reflexivity.
Defined.

(** * Further properties *)

(** ** The dictionary of resolved accounts *)

Lemma dict_get_set_eq d k v : dict_get (dict_set d k v) k = Some v.
Proof.
  induction d as [|[k' v'] d IH]; simpl.
  - by rewrite String.eqb_refl.
  - destruct (String.eqb k' k) eqn:E; simpl; rewrite E; [reflexivity | exact IH].
Qed.

Lemma dict_get_set_ne d k v k' : k ≠ k' → dict_get (dict_set d k v) k' = dict_get d k'.
Proof.
  intros Hne. induction d as [|[k0 v0] d IH]; simpl.
  - apply String.eqb_neq in Hne. by rewrite Hne.
  - destruct (String.eqb k0 k) eqn:E; simpl.
    + apply String.eqb_eq in E. subst k0. apply String.eqb_neq in Hne. by rewrite Hne.
    + destruct (String.eqb k0 k'); [reflexivity | exact IH].
Qed.

Lemma dict_set_keys d k v k' :
  k' ∈ map fst (dict_set d k v) ↔ k' = k ∨ k' ∈ map fst d.
Proof.
  induction d as [|[k0 v0] d IH]; simpl.
  - rewrite list_elem_of_singleton, elem_of_nil. tauto.
  - destruct (String.eqb k0 k) eqn:E; simpl; rewrite !elem_of_cons.
    + apply String.eqb_eq in E. subst k0. tauto.
    + rewrite IH. tauto.
Qed.

Lemma dict_set_NoDup d k v : NoDup (map fst d) → NoDup (map fst (dict_set d k v)).
Proof.
  induction d as [|[k0 v0] d IH]; simpl; intros H.
  - apply NoDup_singleton.
  - apply NoDup_cons in H as [Hn Hd].
    destruct (String.eqb k0 k) eqn:E; simpl; apply NoDup_cons.
    + by split.
    + split; [|by apply IH]. rewrite dict_set_keys. intros [->|H]; [|by apply Hn].
      by rewrite String.eqb_refl in E.
Qed.

Lemma dict_get_is_Some d k : is_Some (dict_get d k) ↔ k ∈ map fst d.
Proof.
  induction d as [|[k0 v0] d IH]; simpl.
  - rewrite elem_of_nil. split; [by intros [? ?] | done].
  - rewrite elem_of_cons. destruct (String.eqb k0 k) eqn:E.
    + apply String.eqb_eq in E. subst k0. split; [by left | by eexists].
    + apply String.eqb_neq in E. rewrite IH. split; [by right | by intros [->|?]].
Qed.

Lemma lower_ascii_idemp c : PyStr.lower_ascii (PyStr.lower_ascii c) = PyStr.lower_ascii c.
Proof. destruct c as [[] [] [] [] [] [] [] []]; reflexivity. Qed.

Lemma lower_idemp s : PyStr.lower (PyStr.lower s) = PyStr.lower s.
Proof. induction s as [|c s IH]; [reflexivity|]. simpl. by rewrite lower_ascii_idemp, IH. Qed.

Section Resolve.
Let step (d : user_map_t) (u : user) : user_map_t :=
  dict_set d (PyStr.lower (username u)) (user_id u).

Lemma resolve_NoDup users d : NoDup (map fst d) → NoDup (map fst (foldl step d users)).
Proof.
  revert d. induction users as [|u users IH]; intros d H; [exact H|].
  simpl. apply IH, dict_set_NoDup, H.
Qed.

Lemma resolve_keys users d k :
  k ∈ map fst (foldl step d users) ↔
  k ∈ map fst d ∨ ∃ u, u ∈ users ∧ PyStr.lower (username u) = k.
Proof.
  revert d. induction users as [|u users IH]; intros d; simpl.
  - split; [by left|]. intros [H|(u & Hu & _)]; [exact H | by apply elem_of_nil in Hu].
  - rewrite IH. unfold step. rewrite dict_set_keys. split.
    + intros [[->|H]|(u' & Hu' & E)].
      * right. exists u. split; [left | reflexivity].
      * by left.
      * right. exists u'. split; [by right | exact E].
    + intros [H|(u' & Hu' & E)]; [left; by right|].
      apply elem_of_cons in Hu' as [->|Hu']; [left; by left|].
      right. by exists u'.
Qed.

Lemma resolve_keeps users d k :
  (∀ u, u ∈ users → PyStr.lower (username u) ≠ k) →
  dict_get (foldl step d users) k = dict_get d k.
Proof.
  revert d. induction users as [|u users IH]; intros d H; [reflexivity|].
  simpl. rewrite IH by (intros u' Hu'; apply H; by right).
  apply dict_get_set_ne, H. left.
Qed.

Lemma resolve_last pre u post d :
  (∀ u', u' ∈ post → PyStr.lower (username u') ≠ PyStr.lower (username u)) →
  dict_get (foldl step d (pre ++ u :: post)) (PyStr.lower (username u)) = Some (user_id u).
Proof.
  intros H. rewrite foldl_app. simpl. rewrite resolve_keeps by exact H.
  apply dict_get_set_eq.
Qed.

Lemma resolve_lowercase users d k :
  (∀ k', k' ∈ map fst d → PyStr.lower k' = k') →
  k ∈ map fst (foldl step d users) → PyStr.lower k = k.
Proof.
  intros Hd Hk. apply resolve_keys in Hk as [Hk|(u & _ & <-)]; [by apply Hd|].
  apply lower_idemp.
Qed.
End Resolve.

(** X1. The mapping [get_user_ids] returns is a dictionary: its keys are
    distinct and in lower case; a handle is a key exactly when the lookup
    returned a user whose lower-cased name it is, so a handle the API did not
    return is absent; and the id kept for a name is that of the last user
    with this lower-cased name. *)
Theorem X1_get_user_ids_mapping (r : lookup_response) (users : list user) (d : user_map_t) :
  lookup_data r = Some users →
  get_user_ids r = inr d →
  NoDup (map fst d) ∧
  (∀ k, k ∈ map fst d → PyStr.lower k = k) ∧
  (∀ k, is_Some (dict_get d k) ↔ ∃ u, u ∈ users ∧ PyStr.lower (username u) = k) ∧
  (∀ pre u post,
     users = (pre ++ u :: post)%list →
     (∀ u', u' ∈ post → PyStr.lower (username u') ≠ PyStr.lower (username u)) →
     dict_get d (PyStr.lower (username u)) = Some (user_id u)).
Proof.
  intros Hd G. unfold get_user_ids in G. rewrite Hd in G.
  destruct (negb (lookup_status r =? 200)); [discriminate|]. injection G as <-.
  split; [|split; [|split]].
  - apply resolve_NoDup. constructor.
  - intros k Hk. eapply resolve_lowercase; [|exact Hk]. intros k' Hk'. by apply elem_of_nil in Hk'.
  - intros k. rewrite dict_get_is_Some, resolve_keys. split.
    + intros [H|H]; [by apply elem_of_nil in H | exact H].
    + intros H. by right.
  - intros pre u post -> H. by apply resolve_last.
Qed.

(** Two spellings of one handle: the later id is kept. *)
Lemma X1_witness :
  dict_get (foldl (fun d u => dict_set d (PyStr.lower (username u)) (user_id u)) []
              [User "Cobie" "1"; User "moonpay" "2"; User "COBIE" "3"]) "cobie" = Some "3".
Proof.
  refine (proj2 (proj2 (proj2 (X1_get_user_ids_mapping
            (LookupResponse 200 "" (Some [User "Cobie" "1"; User "moonpay" "2"; User "COBIE" "3"]))
            _ _ eq_refl eq_refl)))
          [User "Cobie" "1"; User "moonpay" "2"] (User "COBIE" "3") [] eq_refl _).
  intros u' Hu'. by apply elem_of_nil in Hu'.
Defined.

(** [get_user_ids] raises on any status but 200, with the response
    text in the message, and raises [KeyError('data')] on a 200 answer
    without the key; it returns a mapping in every other case. *)
Lemma get_user_ids_failure (r : lookup_response) :
  (lookup_status r ≠ 200 →
   get_user_ids r = inl (Exception ("Failed to get user IDs: " ++ lookup_text r))) ∧
  (lookup_status r = 200 → lookup_data r = None → get_user_ids r = inl (KeyError "data")) ∧
  ((∃ d, get_user_ids r = inr d) ↔ lookup_status r = 200 ∧ is_Some (lookup_data r)).
Proof.
  unfold get_user_ids. split; [|split].
  - intros H. apply Z.eqb_neq in H. by rewrite H.
  - intros -> ->. reflexivity.
  - destruct (lookup_status r =? 200) eqn:E; simpl.
    + apply Z.eqb_eq in E. destruct (lookup_data r) as [users|].
      * split; [by intros; split; [|eexists] | by intros; eexists].
      * split; [by intros [d H] | by intros [_ [? ?]]].
    + apply Z.eqb_neq in E. split; [by intros [d H] | by intros [? _]].
Qed.

(** ** The reverse mapping and the lookup of authors *)

Lemma reverse_lookup_keeps (um : user_map_t) (m : gmap string string) (i : string) :
  i ∉ user_ids um →
  foldl (fun m kv => <[kv.2 := kv.1]> m) m um !! i = m !! i.
Proof.
  revert m. induction um as [|[k v] um IH]; intros m H; [reflexivity|].
  simpl in *. rewrite not_elem_of_cons in H. destruct H as [Hne H].
  rewrite IH by exact H. by apply lookup_insert_ne.
Qed.

Lemma reverse_lookup_some (um : user_map_t) (m : gmap string string) (i : string) :
  i ∈ user_ids um →
  ∃ k, (k, i) ∈ um ∧ foldl (fun m kv => <[kv.2 := kv.1]> m) m um !! i = Some k.
Proof.
  revert m. induction um as [|[k v] um IH]; intros m H; [by apply elem_of_nil in H|].
  simpl in *. destruct (decide (i ∈ user_ids um)) as [Hin|Hout].
  - destruct (IH (<[v:=k]> m) Hin) as (k' & Hk' & E). exists k'. split; [by right | exact E].
  - apply elem_of_cons in H as [->|H]; [|contradiction].
    exists k. split; [left|]. rewrite reverse_lookup_keeps by exact Hout.
    apply lookup_insert_eq.
Qed.

Lemma id_to_username_None (um : user_map_t) (i : string) :
  id_to_username um !! i = None ↔ i ∉ user_ids um.
Proof.
  unfold id_to_username. split.
  - intros E Hin. destruct (reverse_lookup_some um ∅ i Hin) as (k & _ & E'). congruence.
  - intros H. by rewrite reverse_lookup_keeps.
Qed.

(** X2. [id_to_username] has an entry exactly for the ids of [user_map]; the
    entry of an id is a handle that [user_map] maps to it, and when the ids
    are distinct the reverse mapping undoes [user_map]: every handle is
    found again under its id. *)
Theorem X2_id_to_username_inverse (um : user_map_t) :
  (∀ i, id_to_username um !! i = None ↔ i ∉ user_ids um) ∧
  (∀ i k, id_to_username um !! i = Some k → (k, i) ∈ um) ∧
  (NoDup (user_ids um) → ∀ k i, (k, i) ∈ um → id_to_username um !! i = Some k).
Proof.
  split; [intros i; apply id_to_username_None|]. unfold id_to_username. split.
  - intros i k E. destruct (decide (i ∈ user_ids um)) as [Hin|Hout].
    + destruct (reverse_lookup_some um ∅ i Hin) as (k' & Hk' & E'). congruence.
    + rewrite reverse_lookup_keeps in E by exact Hout. by rewrite lookup_empty in E.
  - intros Hnd k i Hin.
    assert (Hi : i ∈ user_ids um).
    { unfold user_ids. apply list_elem_of_In, in_map_iff. exists (k, i).
      split; [reflexivity | by apply list_elem_of_In]. }
    destruct (reverse_lookup_some um ∅ i Hi) as (k' & Hk' & E'). rewrite E'. f_equal.
    clear E' Hi. induction um as [|[k0 i0] um IH]; [by apply elem_of_nil in Hin|].
    simpl in Hnd. apply NoDup_cons in Hnd as [Hn Hnd].
    assert (Hv : ∀ k1, (k1, i) ∈ um → i ∈ user_ids um).
    { intros k1 H1. unfold user_ids. apply list_elem_of_In, in_map_iff. exists (k1, i).
      split; [reflexivity | by apply list_elem_of_In]. }
    apply elem_of_cons in Hin as [Hin|Hin]; apply elem_of_cons in Hk' as [Hk'|Hk'].
    + congruence.
    + injection Hin as -> ->. exfalso. apply Hn. by eapply Hv.
    + injection Hk' as -> ->. exfalso. apply Hn. by eapply Hv.
    + by apply IH.
Qed.

(** Two accounts with distinct ids. *)
Lemma X2_witness : id_to_username [("a", "1"); ("b", "2")] !! "2" = Some "b".
Proof.
  apply (proj2 (proj2 (X2_id_to_username_inverse [("a", "1"); ("b", "2")]))).
  - apply (bool_decide_unpack _). vm_compute. exact I.
  - right. left.
Defined.

(** The for loop raises only at a post whose author has no entry. *)
Lemma for_tweets_raises_at names tweets s e :
  result (for_tweets names tweets s) = inl e →
  ∃ t, t ∈ tweets ∧ e = KeyError (tweet_author_id t) ∧ names !! tweet_author_id t = None.
Proof.
  revert s. induction tweets as [|t rest IH]; intros s H; [discriminate|].
  destruct (for_tweets_cases names t rest s) as [[Hs E]|[(Hs & N & E)|(u & Hs & N & E)]];
    rewrite E in H.
  - destruct (IH _ H) as (t' & Ht' & He). exists t'. split; [by right | exact He].
  - injection H as <-. exists t. split; [left | by split].
  - destruct (IH _ H) as (t' & Ht' & He). exists t'. split; [by right | exact He].
Qed.



(** ** What the for loop delivers *)

(** X4. When the author of every fetched post has an entry, the for loop
    ends without exception; it delivers exactly the fetched ids that were
    not in the dedup set, each once and in the order fetched; and the dedup
    set ends as the old set plus all fetched ids. *)
Theorem X4_for_tweets_delivers_new (names : gmap string string) (tweets : list tweet)
    (s : state) :
  (∀ t, t ∈ tweets → is_Some (names !! tweet_author_id t)) →
  let x := for_tweets names tweets s in
  result x = inr tt ∧
  seen_tweets (final x) = seen_tweets s ∪ list_to_set (map tweet_id tweets) ∧
  NoDup (delivered_ids (trace x)) ∧
  (∀ i, i ∈ delivered_ids (trace x) ↔ i ∈ map tweet_id tweets ∧ i ∉ seen_tweets s) ∧
  delivered_ids (trace x) `sublist_of` map tweet_id tweets.
Proof.
  revert s. induction tweets as [|t rest IH]; intros s Hall.
  - simpl. repeat split; try set_solver. constructor.
  - assert (Hrest : ∀ t', t' ∈ rest → is_Some (names !! tweet_author_id t'))
      by (intros t' Ht'; apply Hall; by right).
    destruct (for_tweets_cases names t rest s) as [[Hs E]|[(Hs & N & E)|(u & Hs & N & E)]].
    + cbv zeta. rewrite E. destruct (IH s Hrest) as (R & S & D & I & L).
      split; [exact R|]. split; [|split; [exact D|split]].
      * rewrite S. simpl. set_solver.
      * intros i. rewrite I. simpl. rewrite elem_of_cons. split; [tauto|].
        intros [[->|H] Hn]; [contradiction | by split].
      * simpl. by apply sublist_cons.
    + destruct (Hall t) as [u Hu]; [left|]. congruence.
    + cbv zeta. rewrite E. projections.
      destruct (IH (add_seen (tweet_id t) s) Hrest) as (R & S & D & I & L).
      split; [exact R|]. split; [|split; [|split]].
      * rewrite S. simpl. set_solver.
      * simpl. apply NoDup_cons. split; [|exact D].
        rewrite I. simpl. intros [_ Hn]. apply Hn. set_solver.
      * intros i. simpl. rewrite !elem_of_cons, I. simpl.
        destruct (decide (i = tweet_id t)) as [->|Hne]; [tauto|]. set_solver.
      * simpl. by apply sublist_skip.
Qed.

(** Four fetched posts, one already seen and one repeated. *)
Lemma X4_witness :
  delivered_ids
    (trace (for_tweets (id_to_username [("a", "1")])
              [Tweet "p1" "1" "w"; Tweet "p2" "1" "x"; Tweet "p3" "1" "y"; Tweet "p2" "1" "x"]
              (State {["p1"]} 0 0 0))) `sublist_of` ["p1"; "p2"; "p3"; "p2"].
Proof.
  refine (proj2 (proj2 (proj2 (proj2 (X4_for_tweets_delivers_new
            (id_to_username [("a", "1")])
            [Tweet "p1" "1" "w"; Tweet "p2" "1" "x"; Tweet "p3" "1" "y"; Tweet "p2" "1" "x"]
            (State {["p1"]} 0 0 0) _))))).
  intros t Ht. exists "a".
  repeat (apply elem_of_cons in Ht as [->|Ht]; [reflexivity|]). by apply elem_of_nil in Ht.
Defined.

(** ** Time *)

Lemma countdown_sleeps i s : sleeps (trace (countdown i s)) = replicate i 1.
Proof.
  revert s. induction i as [|i IH]; intros s; [reflexivity|].
  specialize (IH (advance (inject_Z 1) s)).
  cbn [countdown]. unfold remaining_window. munfold. simpl.
  destruct (countdown i (advance (inject_Z 1) s)) as [[c s'] tr]. simpl in *. by rewrite IH.
Qed.


Lemma slept_ones tr i : sleeps tr = replicate i 1 → slept tr = Z.of_nat i.
Proof.
  unfold slept. intros ->. induction i as [|i IH]; [reflexivity|].
  cbn [replicate foldr]. rewrite IH. lia.
Qed.




Lemma sleeps_prelude tweets : sleeps [EvRequest; EvRecord; found_event tweets] = [].
Proof. by destruct tweets. Qed.

Lemma sleeps_trim s : sleeps (trim_trace s) = [].
Proof. unfold trim_trace. by destruct (1000 <? _). Qed.

Lemma sleeps_for_tweets names tweets s : sleeps (trace (for_tweets names tweets s)) = [].
Proof. apply delivering_sleeps, for_tweets_delivering. Qed.

Lemma check_interval_nat v : Z.of_nat (Z.to_nat (CHECK_INTERVAL v)) = CHECK_INTERVAL v.
Proof. by destruct v. Qed.

(** The sleeps of an iteration whose try body ends without exception. *)
Lemma iteration_waits v names r s :
  permits s = false ∨
  (∃ tweets, get_latest_tweets_batch r = inr tweets ∧
             result (for_tweets names tweets (fetched_state r s)) = inr tt) →
  sleeps (trace (iteration v names r s)) = replicate (Z.to_nat (CHECK_INTERVAL v)) 1.
Proof.
  intros [P|(tweets & G & F)].
  - rewrite iteration_closed by assumption. projections.
    by rewrite !sleeps_app, sleeps_gate, countdown_sleeps, app_nil_r.
  - destruct (permits s) eqn:P.
    + rewrite (iteration_completes _ _ _ _ tweets) by assumption. projections.
      rewrite sleeps_app, sleeps_gate.
      rewrite (sleeps_app [EvRequest; EvRecord; found_event tweets]), sleeps_prelude.
      by rewrite !sleeps_app, sleeps_for_tweets, sleeps_trim, countdown_sleeps, app_nil_r.
    + rewrite iteration_closed by assumption. projections.
      by rewrite !sleeps_app, sleeps_gate, countdown_sleeps, app_nil_r.
Qed.

Lemma handler_sleeps v e s :
  sleeps (trace (handler v e s)) =
  if is_rate_limit e then (if 0 <? wait_time s then [wait_time s] else [])
  else [CHECK_INTERVAL v].
Proof.
  destruct (handler_cases v e s) as [[R E]|[(R & W & E)|(R & W & E)]]; rewrite E, R; projections.
  - reflexivity.
  - apply Z.ltb_lt in W. by rewrite W.
  - apply Z.ltb_ge in W. by rewrite W.
Qed.

(** X5. How the loop sleeps between two checks.  An iteration whose try
    body ends without exception sleeps one second [CHECK_INTERVAL] times,
    the countdown; one that catches an error that is no rate limit sleeps
    once, for [CHECK_INTERVAL] seconds; one that catches a rate-limit error
    sleeps once, for the whole seconds left of the window, and not at all
    when less than a second is left. *)
Theorem X5_iteration_sleeps (v : variant) (names : gmap string string) (r : response)
    (s : state) :
  let it := iteration v names r s in
  let caught (e : exn) (st : state) :=
    if is_rate_limit e then (if 0 <? wait_time st then [wait_time st] else [])
    else [CHECK_INTERVAL v] in
  (permits s = false ∨
   (∃ tweets, get_latest_tweets_batch r = inr tweets ∧
              result (for_tweets names tweets (fetched_state r s)) = inr tt) →
   sleeps (trace it) = replicate (Z.to_nat (CHECK_INTERVAL v)) 1 ∧
   slept (trace it) = CHECK_INTERVAL v) ∧
  (∀ e, permits s = true → get_latest_tweets_batch r = inl e →
        sleeps (trace it) = caught e (failed_state r s)) ∧
  (∀ tweets e, permits s = true → get_latest_tweets_batch r = inr tweets →
               result (for_tweets names tweets (fetched_state r s)) = inl e →
               sleeps (trace it) =
               caught e (final (for_tweets names tweets (fetched_state r s)))).
Proof.
  intros it caught. split; [|split].
  - intros H. pose proof (iteration_waits v names r s H) as W. fold it in W.
    split; [exact W|]. by rewrite (slept_ones _ _ W), check_interval_nat.
  - intros e P G. unfold it, caught.
    rewrite (iteration_fetch_raises _ _ _ _ e P G). projections.
    rewrite !sleeps_app, sleeps_gate, handler_sleeps. reflexivity.
  - intros tweets e P G F. unfold it, caught.
    rewrite (iteration_loop_raises _ _ _ _ tweets e P G F). projections.
    rewrite sleeps_app, sleeps_gate.
    rewrite (sleeps_app [EvRequest; EvRecord; found_event tweets]), sleeps_prelude.
    rewrite sleeps_app, sleeps_for_tweets, handler_sleeps. reflexivity.
Qed.

(** A check that finds nothing in kol_moniter.py: sixty sleeps of a second. *)
Lemma X5_witness :
  sleeps (trace (iteration Telegram ∅ (Response 200 "" None (1 # 4)) (initial 0))) =
  replicate 60 1.
Proof.
  refine (proj1 (proj1 (X5_iteration_sleeps Telegram ∅ (Response 200 "" None (1 # 4))
                          (initial 0)) _)).
  right. exists []. split; reflexivity.
Defined.

(** ** The window start is never ahead of the clock *)









(** ** The gate opens again *)






(** ** What reaches the sink *)

Lemma sink_calls_cons v e tr : sink_calls v (e :: tr) = (sink_calls v [e] + sink_calls v tr)%nat.
Proof. apply (sink_calls_app v [e] tr). Qed.

Lemma sink_calls_count v tr :
  sink_calls v tr =
  match v with
  | Telegram => (length (deliveries tr) + reports tr)%nat
  | Audio => length (deliveries tr)
  end.
Proof.
  induction tr as [|e tr IH]; [by destruct v|].
  rewrite sink_calls_cons, IH. unfold deliveries. rewrite filter_cons.
  destruct v, e; simpl; lia.
Qed.

(** X8. Over a whole run the sink is invoked once for each delivered post
    and, in kol_moniter.py, once more for the start-up announcement and for
    each error report; in monitor_kol_tweets.py the sound is played for
    delivered posts only. *)
Theorem X8_sink_calls_of_run (v : variant) (user_map : user_map_t) (t0 : Q)
    (rs : list response) :
  let tr := trace (monitor_tweets v user_map t0 rs) in
  sink_calls v tr =
  match v with
  | Telegram => (length (deliveries tr) + reports tr)%nat
  | Audio => length (deliveries tr)
  end ∧
  length (deliveries tr) = length (delivered_ids tr) ∧
  (1 <= reports tr)%nat.
Proof.
  intros tr. split; [apply sink_calls_count|]. split.
  - induction tr as [|e tr' IH]; [reflexivity|].
    unfold deliveries in *. rewrite filter_cons. destruct e; simpl; auto.
  - unfold tr. rewrite monitor_tweets_run. projections. simpl. lia.
Qed.

(** ** The cap of the dedup set *)

Lemma iteration_cap v um r s :
  (∀ tweets t, get_latest_tweets_batch r = inr tweets → t ∈ tweets →
               tweet_author_id t ∈ user_ids um) →
  (size (seen_tweets s) <= 1000)%nat →
  (size (seen_tweets (final (iteration v (id_to_username um) r s))) <= 1000)%nat.
Proof.
  intros Hall Hs.
  destruct (iteration_outcome v (id_to_username um) r s) as [P|e P G|tweets e P G F|tweets P G F].
  - rewrite iteration_closed by assumption. projections.
    by rewrite countdown_seen, gate_state_seen.
  - rewrite (iteration_fetch_raises _ _ _ _ e) by assumption. projections.
    rewrite handler_seen. unfold failed_state. simpl. by rewrite gate_state_seen.
  - apply for_tweets_raises_at in F as (t & Ht & _ & N).
    apply id_to_username_None in N. exfalso. apply N. by eapply Hall.
  - rewrite (iteration_completes _ _ _ _ tweets) by assumption. projections.
    rewrite countdown_seen. unfold trimmed.
    destruct (1000 <? Z.of_nat (size _)) eqn:E; cbn [seen_tweets clear_seen].
    + rewrite size_empty. lia.
    + apply Z.ltb_ge in E. lia.
Qed.

(** X9. In a run in which every fetched post is of one of the resolved
    accounts, the dedup set holds at most 1000 ids whenever an iteration
    ends. *)
Theorem X9_dedup_set_capped (v : variant) (user_map : user_map_t) (t0 : Q)
    (rs : list response) :
  (∀ r tweets t, r ∈ rs → get_latest_tweets_batch r = inr tweets → t ∈ tweets →
                 tweet_author_id t ∈ user_ids user_map) →
  (size (seen_tweets (final (monitor_tweets v user_map t0 rs))) <= 1000)%nat.
Proof.
  intros Hall. rewrite monitor_tweets_run. projections.
  assert (H0 : (size (seen_tweets (initial t0)) <= 1000)%nat)
    by (cbn [seen_tweets initial]; rewrite size_empty; lia).
  revert H0. generalize (initial t0). induction rs as [|r rs IH]; intros s Hs; [exact Hs|].
  rewrite while_true_cons. projections. apply IH.
  - intros r' tweets t Hr'. apply Hall. by right.
  - apply iteration_cap; [|exact Hs]. intros tweets t. apply Hall. left.
Qed.

(** Two checks that return one post of the resolved account each. *)
Lemma X9_witness :
  (size (seen_tweets (final (monitor_tweets Telegram [("a", "1")] 0
                               [Response 200 "" (Some [Tweet "p1" "1" "x"]) 0;
                                Response 200 "" (Some [Tweet "p2" "1" "y"]) 0]))) <= 1000)%nat.
Proof.
  apply (X9_dedup_set_capped Telegram [("a", "1")] 0
           [Response 200 "" (Some [Tweet "p1" "1" "x"]) 0;
            Response 200 "" (Some [Tweet "p2" "1" "y"]) 0]).
  intros r tweets t Hr G Ht.
  apply elem_of_cons in Hr as [->|Hr]; [|apply list_elem_of_singleton in Hr; subst r];
    injection G as <-; apply list_elem_of_singleton in Ht; subst t; left.
Defined.

(** ** The search query *)

Lemma prefix_refl (n : string) : String.prefix n n = true.
Proof.
  induction n as [|c n IH]; [reflexivity|]. simpl.
  destruct (ascii_dec c c); [exact IH | congruence].
Qed.

Lemma str_in_refl (n : string) : PyStr.str_in n n = true.
Proof.
  destruct n as [|c n]; [reflexivity|]. cbn [PyStr.str_in].
  by rewrite prefix_refl.
Qed.

Lemma str_in_join (n sep : string) (l : list string) (x : string) :
  x ∈ l → PyStr.str_in n x = true → PyStr.str_in n (join sep l) = true.
Proof.
  intros Hin Hx. induction l as [|x0 l IH]; [by apply elem_of_nil in Hin|].
  destruct l as [|y l].
  - apply list_elem_of_singleton in Hin. by subst x0.
  - change (join sep (x0 :: y :: l)) with (x0 ++ sep ++ join sep (y :: l)).
    apply elem_of_cons in Hin as [->|Hin].
    + by apply str_in_app_l.
    + do 2 apply str_in_app_r. by apply IH.
Qed.

Lemma dict_get_value d k i : dict_get d k = Some i → i ∈ user_ids d.
Proof.
  induction d as [|[k0 v0] d IH]; simpl; [discriminate|].
  destruct (String.eqb k0 k); intros H.
  - injection H as ->. left.
  - right. by apply IH.
Qed.

(** X10. The requests name every account: the lookup URL holds each handle
    asked for, and the search query holds [from:<id>] for each id given, so
    for the id of each entry of [user_map]. *)
Theorem X10_query_names_every_account (d : user_map_t) (k i : string)
    (usernames : list string) (h : string) :
  dict_get d k = Some i →
  h ∈ usernames →
  PyStr.str_in ("from:" ++ i) (search_query (user_ids d)) = true ∧
  PyStr.str_in h (users_url usernames) = true.
Proof.
  intros Hk Hh. split.
  - unfold search_query. apply str_in_app_r, str_in_app_l.
    apply (str_in_join _ _ _ ("from:" ++ i)); [|apply str_in_refl].
    apply list_elem_of_In, in_map_iff. exists i.
    split; [reflexivity | by apply list_elem_of_In, (dict_get_value d k)].
  - unfold users_url. apply str_in_app_r.
    apply (str_in_join _ _ _ h); [exact Hh | apply str_in_refl].
Qed.

(** Two resolved accounts. *)
Lemma X10_witness :
  PyStr.str_in "from:2" (search_query (user_ids [("cobie", "1"); ("moonpay", "2")])) = true ∧
  PyStr.str_in "moonpay" (users_url ["cobie"; "moonpay"]) = true.
Proof.
  apply (X10_query_names_every_account [("cobie", "1"); ("moonpay", "2")] "moonpay" "2"
           ["cobie"; "moonpay"] "moonpay").
  - reflexivity.
  - right. left.
Defined.

(** ** Start-up *)

Lemma lower_is_y (s : string) : PyStr.lower s = "y" ↔ s = "y" ∨ s = "Y".
Proof.
  split.
  - destruct s as [|c [|c' s']]; simpl; intros H; try discriminate.
    injection H as H. revert H.
    destruct c as [[] [] [] [] [] [] [] []]; vm_compute; intros H; try discriminate; auto.
  - intros [->| ->]; reflexivity.
Qed.

Lemma truthy_iff (o : option string) : truthy o = true ↔ ∃ s, o = Some s ∧ s ≠ "".
Proof.
  destruct o as [[|c s]|]; simpl; split; try discriminate.
  - intros (s & E & Hne). injection E as <-. congruence.
  - intros _. by eexists.
  - intros _. reflexivity.
  - intros (s & E & _). discriminate.
Qed.

(** X11. [main] reaches [monitor_tweets] exactly when the handle list is not
    empty and does not start with the placeholder, the credentials of the
    variant are set and not empty, and the verification passes: the lookup
    succeeds, and in kol_moniter.py also the test search returns 200 and the
    Telegram test message goes through, while monitor_kol_tweets.py does not
    look at the status of its test search.  Debug mode is on exactly for the
    answers y and Y. *)
Theorem X11_main_starts (v : variant) (handles : list string)
    (bearer bot channel : option string) (test_status : Z) (remaining : option string)
    (lookup : lookup_response) (telegram_error : option string) (answer : string) :
  let verified := fst (verify v test_status remaining lookup telegram_error) in
  ((∃ d, main v handles bearer bot channel verified answer = Started d) ↔
   (∃ h rest, handles = h :: rest ∧ h ≠ "handle1") ∧
   truthy bearer = true ∧
   (v = Telegram → truthy bot = true ∧ truthy channel = true) ∧
   (∃ user_map, get_user_ids lookup = inr user_map) ∧
   (v = Telegram → test_status = 200 ∧ telegram_error = None)) ∧
  (∀ d, main v handles bearer bot channel verified answer = Started d →
        (d = true ↔ answer = "y" ∨ answer = "Y")).
Proof.
  intros verified. split.
  - unfold main. split.
    + intros [d H].
      destruct handles as [|h rest]; [discriminate|].
      destruct (String.eqb h "handle1") eqn:Eh; [discriminate|].
      apply String.eqb_neq in Eh.
      destruct v; unfold verified, verify in H.
      * destruct (truthy bearer), (truthy bot), (truthy channel); try discriminate.
        destruct (get_user_ids lookup) as [e|um]; [discriminate|].
        destruct telegram_error; [discriminate|]. simpl in H.
        destruct (test_status =? 200) eqn:Et; [|discriminate]. apply Z.eqb_eq in Et.
        repeat split; eauto.
      * destruct (truthy bearer); [|discriminate].
        destruct (get_user_ids lookup) as [e|um]; [discriminate|].
        repeat split; eauto; discriminate.
    + intros ((h & rest & -> & Hh) & Hb & Ht & (um & Hu) & Hv).
      apply String.eqb_neq in Hh. rewrite Hh. unfold verified, verify. rewrite Hu, Hb.
      destruct v.
      * destruct (Ht eq_refl) as [-> ->]. destruct (Hv eq_refl) as [-> ->]. by eexists.
      * by eexists.
  - intros d H. unfold main in H.
    destruct handles as [|h rest]; [discriminate|].
    destruct (String.eqb h "handle1"); [discriminate|].
    destruct (negb _); [discriminate|]. destruct (negb verified); [discriminate|].
    injection H as <-. rewrite String.eqb_eq. apply lower_is_y.
Qed.

(** monitor_kol_tweets.py with a token the test search rejects (401) and a
    lookup that succeeds: the monitor starts, in debug mode for "Y". *)
Lemma X11_witness :
  main Audio ["cobie"] (Some "token") None None
    (fst (verify Audio 401 None (LookupResponse 200 "" (Some [User "cobie" "1"])) None)) "Y" =
  Started true.
Proof.
  pose proof (X11_main_starts Audio ["cobie"] (Some "token") None None 401 None
                (LookupResponse 200 "" (Some [User "cobie" "1"])) None "Y") as [H1 H2].
  cbv zeta in H1, H2. destruct (proj2 H1) as [d Hd].
  - split; [by exists "cobie", []|]. split; [reflexivity|]. split; [discriminate|].
    split; [by eexists | discriminate].
  - rewrite Hd. f_equal. apply (H2 d Hd). by right.
Defined.
